(** * A shallow embedding of the logging module (logging.h, logging.c)

    The C functions are translated into Rocq functions over an explicit
    [world]: the module's own static state (the threshold [level]), the part
    of the C library the module drives (the [stderr] stream, the directory of
    files, the heap, the clock) and the trace of library calls made so far.
    A function of the source that returns [int] returns a pair of the value
    and the new world; [None] stands for a run whose behaviour the C standard
    leaves undefined (a buffer overrun, a conversion without its argument,
    an [int] overflow).

    Conventions.
    - The default build is modelled: [MALLOC], [CALLOC] and [FREE] are the
      plain allocator ([_LOG_MALLOC_] is not defined).
    - A C string is a [string]; the terminating NUL is implicit, and appears
      only where the source manages buffers by hand ([rotate_logs],
      [bits2str]).
    - The variadic tail of an emitter (format and arguments) is taken after
      expansion, as the text [msg] that [vfprintf] prints.
    - One thread runs; the mutex is seen as the two events around the
      writes.
    - The signal dumps ([dump_baseband_signal], [dump_passband_signal])
      write to a stream of their own; the text the conversion [%f] prints
      for a sample is a parameter of the baseband dump.
    - The functions of the allocation-tracking build ([log_malloc],
      [log_calloc], [log_free]) are not part of the development. *)

From Stdlib Require Import ZArith String Ascii Strings.Byte.
From Stdlib Require Import DecimalString DecimalZ DecimalN DecimalPos DecimalFacts.
From Stdlib Require HexadecimalString.
From stdpp Require Import gmap strings list.

Open Scope string_scope.
Open Scope Z_scope.

(** ** Constants of logging.h *)

Definition LOG_NONE : Z := 0.
Definition LOG_ERRORS : Z := 1.
Definition LOG_WARNINGS : Z := 2.
Definition LOG_INFO : Z := 3.
Definition LOG_DEBUG : Z := 4.
Definition LOG_ALL : Z := 5.

(** ** C integers *)

Definition INT_MAX : Z := 2147483647.
Definition INT_MIN : Z := -2147483648.

(** [z] is a value of type [int]. The parameters of type [int] are taken as
    integers; where the module computes on them, a result outside the range
    is an overflow, which C leaves undefined. *)
Definition in_int (z : Z) : bool := (INT_MIN <=? z) && (z <=? INT_MAX).

(** ** C strings *)

Definition strlen (s : string) : Z := Z.of_nat (String.length s).

(** [strstr haystack needle]: offset of the first occurrence, [None] for the
    null pointer. *)
Fixpoint strstr (haystack needle : string) : option nat :=
  if String.prefix needle haystack then Some 0%nat
  else match haystack with
       | EmptyString => None
       | String _ rest => S <$> strstr rest needle
       end.

(** [strrchr s c]: the tail of [s] that starts at the last occurrence of [c],
    [None] for the null pointer. *)
Fixpoint strrchr (s : string) (c : ascii) : option string :=
  match s with
  | EmptyString => None
  | String a rest =>
    match strrchr rest c with
    | Some p => Some p
    | None => if Ascii.eqb a c then Some s else None
    end
  end.

(** Pointer arithmetic on a string: [p + n]. *)
Fixpoint str_plus (p : string) (n : nat) {struct n} : string :=
  match n with
  | O => p
  | S n' =>
    match p with
    | String _ rest => str_plus rest n'
    | EmptyString => p
    end
  end.

(** The first [n] characters, as [memcpy(dst, src, n)] copies them. *)
Fixpoint str_take (n : nat) (s : string) : string :=
  match n, s with
  | S n', String a rest => String a (str_take n' rest)
  | _, _ => EmptyString
  end.

Definition newline : string := String (ascii_of_nat 10) EmptyString.

(** Decimal text of an integer, as the conversions [%d] and [%PRIu64]
    print it. *)
Definition dec (z : Z) : string :=
  DecimalString.NilZero.string_of_int (Z.to_int z).

(** Expansion of a format by [sprintf(buf, fmt, i)] with the single [int]
    argument [i]. [arg] is the argument while it has not been consumed.
    Ordinary characters are copied, [%d] consumes the argument, [%%] prints a
    percent sign. A second [%d] (no argument left) and every other conversion
    are outside what the call defines. *)
Fixpoint format_int (fmt : string) (arg : option Z) : option string :=
  match fmt with
  | EmptyString => Some EmptyString
  | String c rest =>
    if Ascii.eqb c "%" then
      match rest with
      | EmptyString => None
      | String d rest' =>
        if Ascii.eqb d "d" then
          match arg with
          | Some i => String.append (dec i) <$> format_int rest' None
          | None => None
          end
        else if Ascii.eqb d "%" then String "%" <$> format_int rest' arg
        else None
      end
    else String c <$> format_int rest arg
  end.

(** [sprintf] into a buffer of [cap] bytes: the text and its terminating NUL
    must fit. *)
Definition sprintf (cap : Z) (fmt : string) (i : Z) : option string :=
  s ← format_int fmt (Some i);
  if strlen s + 1 <=? cap then Some s else None.

(** ** The world: static state of the module and the C library under it *)

Inductive sink :=
| Terminal
| File (path : string).

Inductive stream :=
| Closed
| Attached (s : sink).

Inductive event :=
| EvRename (src dst : string)
| EvFreopen (path : string)
| EvWrite (text : string)
| EvFlush
| EvClose
| EvLock
| EvUnlock.

(** What [gettimeofday] fills in. *)
Record timeval := Timeval {
  tv_sec : Z;
  tv_usec : Z
}.

Record world := World {
  level : Z;                    (* static int level *)
  stderr : stream;              (* what the FILE object stderr is attached to *)
  fs : gmap string string;      (* directory: path to file contents *)
  terminal : string;            (* text received by the original standard error *)
  openable : string → bool;     (* whether a path can be opened for appending *)
  movable : string → string → bool;
                                (* whether the system carries out the rename of an
                                   existing file to the second path: the target's
                                   directory exists and is the same device, both
                                   directories may be written *)
  io_fault : bool;              (* the device rejects writes (full disk, broken pipe) *)
  heap_avail : Z;               (* bytes the allocator can still hand out *)
  clock : timeval;              (* wall clock, as gettimeofday reports it *)
  trace : list event            (* library calls made so far, oldest first *)
}.

Definition with_level (l : Z) (w : world) : world :=
  World l (stderr w) (fs w) (terminal w) (openable w) (movable w) (io_fault w)
        (heap_avail w) (clock w) (trace w).

Definition with_stderr (s : stream) (w : world) : world :=
  World (level w) s (fs w) (terminal w) (openable w) (movable w) (io_fault w)
        (heap_avail w) (clock w) (trace w).

Definition with_fs (d : gmap string string) (w : world) : world :=
  World (level w) (stderr w) d (terminal w) (openable w) (movable w) (io_fault w)
        (heap_avail w) (clock w) (trace w).

Definition with_terminal (t : string) (w : world) : world :=
  World (level w) (stderr w) (fs w) t (openable w) (movable w) (io_fault w)
        (heap_avail w) (clock w) (trace w).

Definition with_heap (h : Z) (w : world) : world :=
  World (level w) (stderr w) (fs w) (terminal w) (openable w) (movable w) (io_fault w)
        h (clock w) (trace w).

Definition record (e : event) (w : world) : world :=
  World (level w) (stderr w) (fs w) (terminal w) (openable w) (movable w) (io_fault w)
        (heap_avail w) (clock w) (trace w ++ [e]).

(** *** Allocator *)

(** [malloc(size)] and [calloc(1, size)]: [None] is the null pointer. A
    negative [int] converts to a huge [size_t], which no heap satisfies. *)
Definition malloc (size : Z) (w : world) : option world :=
  if (0 <=? size) && (size <=? heap_avail w)
  then Some (with_heap (heap_avail w - size) w)
  else None.

Definition free (size : Z) (w : world) : world :=
  with_heap (heap_avail w + size) w.

(** *** Files *)

(** [rename(src, dst)] on regular files: fails (-1) and moves nothing when
    [src] does not exist (ENOENT), and when the system refuses the move (a
    component of the path of [dst] does not exist, a directory may not be
    written, [dst] is on another device: ENOENT, EACCES, EXDEV, ...);
    otherwise [dst] is replaced by the file (POSIX: an existing [dst] is
    removed; renaming a file to itself changes nothing). The module creates
    and removes no directory, so what the system refuses does not change
    during a run. *)
Definition rename (src dst : string) (w : world) : Z * world :=
  let w' := record (EvRename src dst) w in
  match fs w !! src with
  | Some c =>
    if movable w src dst then (0, with_fs (<[dst := c]> (delete src (fs w))) w')
    else (-1, w')
  | None => (-1, w')
  end.

(** [freopen(path, "a", stderr)]: the stream is first closed, whatever
    follows (C11 7.21.5.4, and POSIX: the original stream is closed
    regardless of whether the subsequent open succeeds); then the file is
    opened for appending, created empty when absent. The boolean is the
    result compared with the null pointer. *)
Definition freopen_append (path : string) (w : world) : bool * world :=
  let w1 := with_stderr Closed (record (EvFreopen path) w) in
  if openable w path then
    let d := match fs w !! path with
             | Some _ => fs w
             | None => <[path := EmptyString]> (fs w)
             end in
    (true, with_stderr (Attached (File path)) (with_fs d w1))
  else (false, w1).

(** Where a successful write lands. A stream on a file is identified with
    the path it was opened on: the module makes no write between a rename
    and the [freopen] that follows it. *)
Definition deliver (s : sink) (text : string) (w : world) : world :=
  match s with
  | Terminal => with_terminal (terminal w ++ text) w
  | File p => with_fs (alter (λ c, c ++ text) p (fs w)) w
  end.

(** [fprintf(stderr, ...)] and [vfprintf(stderr, ...)] once the text is
    formatted: the number of characters written, or a negative value. *)
Definition fprintf_stderr (text : string) (w : world) : Z * world :=
  let w' := record (EvWrite text) w in
  match stderr w with
  | Attached s => if io_fault w then (-1, w') else (strlen text, deliver s text w')
  | Closed => (-1, w')
  end.

Definition fflush_stderr (w : world) : Z * world :=
  let w' := record EvFlush w in
  match stderr w with
  | Attached _ => if io_fault w then (-1, w') else (0, w')
  | Closed => (-1, w')
  end.

(** [fclose(stderr)]: 0, or EOF (-1) when the stream cannot be flushed and
    closed properly. The stream is closed either way. *)
Definition fclose_stderr (w : world) : Z * world :=
  let w' := with_stderr Closed (record EvClose w) in
  match stderr w with
  | Attached _ => if io_fault w then (-1, w') else (0, w')
  | Closed => (-1, w')
  end.

Definition pthread_mutex_lock (w : world) : world := record EvLock w.
Definition pthread_mutex_unlock (w : world) : world := record EvUnlock w.

(** ** logging.c *)

Definition gettimeofday (w : world) : timeval := clock w.

(** [tv_sec*1000ll + tv_usec/1000], returned as a [uint64_t]. *)
Definition current_time_ms (w : world) : Z :=
  let te := gettimeofday w in
  (tv_sec te * 1000 + Z.quot (tv_usec te) 1000) mod 2 ^ 64.

(** The value a C function hands to its caller: nothing for [void]. *)
Inductive retval :=
| RVoid
| RInt (z : Z).

(** How a call ends: it returns to the caller, or the process exits. *)
Inductive outcome :=
| Returns (v : retval) (w : world)
| Exits (status : Z) (w : world).

(** The block the five emitters share, between the level test and the
    return: [tag] is the severity name of the header, [msg] the text
    [vfprintf] produces from the caller's format and arguments. *)
Definition emit (tag module : string) (line : Z) (msg : string) (w : world) : world :=
  let smodule := match strrchr module "/" with
                 | Some p => str_plus p 1
                 | None => module
                 end in
  let w := pthread_mutex_lock w in
  let w := snd (fprintf_stderr
                  (dec (current_time_ms w) ++ "|" ++ tag ++ "|" ++ smodule ++ ":"
                   ++ dec line ++ "|") w) in
  let w := snd (fprintf_stderr msg w) in
  let w := snd (fprintf_stderr newline w) in
  let w := snd (fflush_stderr w) in
  pthread_mutex_unlock w.

Definition log_die (module : string) (line : Z) (msg : string) (w : world) : outcome :=
  let w := if LOG_NONE <? level w then emit "ABORT" module line msg w else w in
  Exits 1 w.

Definition log_error (module : string) (line : Z) (msg : string) (w : world) : Z * world :=
  let w := if LOG_ERRORS <=? level w then emit "ERROR" module line msg w else w in
  (-1, w).

Definition log_warning (module : string) (line : Z) (msg : string) (w : world) : Z * world :=
  let w := if LOG_WARNINGS <=? level w then emit "WARNING" module line msg w else w in
  (-1, w).

Definition log_info (module : string) (line : Z) (msg : string) (w : world) : world :=
  if LOG_INFO <=? level w then emit "INFO" module line msg w else w.

Definition log_debug (module : string) (line : Z) (msg : string) (w : world) : world :=
  if LOG_DEBUG <=? level w then emit "DEBUG" module line msg w else w.

(** [__FILE__] inside logging.c; the emitters keep its last component only. *)
Definition this_file : string := "src/main/c/logging.c".

(** The macro [warning(format)] expanded at [line] of logging.c. *)
Definition warning (line : Z) (msg : string) (w : world) : Z * world :=
  log_warning this_file line msg w.

(** The body of the loop of [rotate_logs], [n] iterations still to run: the
    loop variable [i] takes the values [n-1], ..., [0]. *)
Fixpoint rotate_loop (pattern : string) (maxlen : Z) (n : nat) (w : world) : option world :=
  match n with
  | O => Some w
  | S m =>
    let i := Z.of_nat m in
    filename1 ← sprintf maxlen pattern i;
    filename2 ← sprintf maxlen pattern (i + 1);
    rotate_loop pattern maxlen m (snd (rename filename1 filename2 w))
  end.

Definition rotate_logs (pattern : string) (maxfiles : Z) (w : world) : option (Z * world) :=
  let maxlen := strlen pattern + 8 in
  if in_int (2 * maxlen) then
    match malloc (2 * maxlen) w with
    | None => Some (-1, w)
    | Some w1 =>
      w2 ← rotate_loop pattern maxlen (Z.to_nat maxfiles) w1;
      Some (0, free (2 * maxlen) w2)
    end
  else None.

(** The pattern [log_open] builds from a file name whose marker starts at
    offset [p]: the text before it, "-%d.", the text after the marker. *)
Definition make_pattern (filename : string) (p : nat) : string :=
  str_take p filename ++ "-%d." ++ str_plus filename (p + 3).

(** The last two statements of [log_open]. *)
Definition reopen (filename : string) (w : world) : Z * world :=
  match freopen_append filename w with
  | (true, w') => (0, w')
  | (false, w') => warning 54 "Cannot open log file" w'
  end.

Definition log_open (filename : string) (maxfiles : Z) (w : world) : option (Z * world) :=
  if 1 <? maxfiles then
    match malloc (strlen filename + 8) w with
    | None => Some (warning 44 "Out of memory" w)
    | Some w1 =>
      w2 ← match strstr filename "-0." with
           | Some p => snd <$> rotate_logs (make_pattern filename p) maxfiles w1
           | None => Some w1
           end;
      Some (reopen filename (free (strlen filename + 8) w2))
    end
  else Some (reopen filename w).

Definition log_close (w : world) : Z * world :=
  let w := snd (fclose_stderr w) in
  (0, w).

Definition log_level (lvl : Z) (w : world) : Z * world :=
  let w := if (LOG_NONE <=? lvl) && (lvl <=? LOG_ALL) then with_level lvl w else w in
  (level w, w).

(** *** bits2str *)

(** A [char] buffer in memory, one cell per byte. *)
Definition NUL : ascii := Ascii.zero.

(** The string a [char*] to the start of the buffer denotes: the characters
    before the first NUL. *)
Fixpoint cstring (buf : list ascii) : string :=
  match buf with
  | [] => EmptyString
  | a :: rest => if Ascii.eqb a NUL then EmptyString else String a (cstring rest)
  end.

(** Zero-padding of a number's text to [width] characters, the flag and
    field width of [%02x]. *)
Definition zero_pad (width : nat) (s : string) : string :=
  string_of_list_ascii (replicate (width - String.length s) "0"%char) ++ s.

(** The text the conversion [%02x] prints for [data[i]]: lower-case
    hexadecimal, at least two digits. *)
Definition format_02x (b : byte) : string :=
  zero_pad 2 (HexadecimalString.NilZero.string_of_uint (N.to_hex_uint (Byte.to_N b))).

(** [sprintf(str + off, ...)] producing [text]: the characters and the
    terminating NUL are stored from cell [off] on; they must fit. *)
Definition sprintf_at (str : list ascii) (off : nat) (text : string) : option (list ascii) :=
  let cells := (list_ascii_of_string text ++ [NUL])%list in
  if (off + length cells <=? length str)%nat
  then Some (take off str ++ cells ++ drop (off + length cells) str)%list
  else None.

(** The loop of [bits2str], [n] iterations still to run from index [i]. *)
Fixpoint bits2str_loop (data : list byte) (n i : nat) (str : list ascii) : option (list ascii) :=
  match n with
  | O => Some str
  | S n' =>
    if in_int (2 * Z.of_nat i) then
      b ← data !! i;
      str' ← sprintf_at str (2 * i) (format_02x b);
      bits2str_loop data n' (S i) str'
    else None
  end.

(** [str] is the caller's buffer, [None] for a null pointer; the result is
    the returned pointer, [None] for the null pointer. *)
Definition bits2str (data : list byte) (len : Z) (str : option (list ascii)) (w : world)
  : option (option (list ascii) * world) :=
  match str with
  | Some buf =>
    r ← bits2str_loop data (Z.to_nat len) 0 buf;
    Some (Some r, w)
  | None =>
    if in_int (2 * len + 1) then
      match malloc (2 * len + 1) w with
      | None => Some (None, w)
      | Some w' =>
        r ← bits2str_loop data (Z.to_nat len) 0 (replicate (Z.to_nat (2 * len + 1)) NUL);
        Some (Some r, w')
      end
    else None
  end.

(** ** The emitters seen through one entry point *)

Inductive severity :=
| SevError
| SevWarning
| SevInfo
| SevDebug.

(** A call of the emitter of severity [s], with what its C prototype returns:
    [int] for [log_error] and [log_warning], nothing for [log_info] and
    [log_debug]. *)
Definition emitter_call (s : severity) (module : string) (line : Z) (msg : string)
    (w : world) : outcome :=
  match s with
  | SevError => let '(r, w') := log_error module line msg w in Returns (RInt r) w'
  | SevWarning => let '(r, w') := log_warning module line msg w in Returns (RInt r) w'
  | SevInfo => Returns RVoid (log_info module line msg w)
  | SevDebug => Returns RVoid (log_debug module line msg w)
  end.

(** The minimum threshold each severity requires, and its tag in the header. *)
Definition min_level (s : severity) : Z :=
  match s with
  | SevError => LOG_ERRORS
  | SevWarning => LOG_WARNINGS
  | SevInfo => LOG_INFO
  | SevDebug => LOG_DEBUG
  end.

Definition tag_of (s : severity) : string :=
  match s with
  | SevError => "ERROR"
  | SevWarning => "WARNING"
  | SevInfo => "INFO"
  | SevDebug => "DEBUG"
  end.

(** What an emitter hands back, by its prototype in logging.h. *)
Definition returned_by (s : severity) : retval :=
  match s with
  | SevError | SevWarning => RInt (-1)
  | SevInfo | SevDebug => RVoid
  end.

Definition final_world (o : outcome) : world :=
  match o with
  | Returns _ w => w
  | Exits _ w => w
  end.

(** ** Vocabulary of the statements *)

(** The last path component, which the header of a log line shows. *)
Definition basename (module : string) : string :=
  match strrchr module "/" with
  | Some p => str_plus p 1
  | None => module
  end.

Definition header (tag module : string) (line : Z) (w : world) : string :=
  dec (current_time_ms w) ++ "|" ++ tag ++ "|" ++ basename module ++ ":"
  ++ dec line ++ "|".

(** No slash occurs in [s]. *)
Fixpoint slash_free (s : string) : bool :=
  match s with
  | EmptyString => true
  | String c rest => negb (Ascii.eqb c "/") && slash_free rest
  end.

(** The whole line of a record, as it reaches the sink. *)
Definition log_line (tag module : string) (line : Z) (msg : string) (w : world) : string :=
  header tag module line w ++ msg ++ newline.

(** The library calls one log line consists of. *)
Definition line_events (tag module : string) (line : Z) (msg : string) (w : world)
  : list event :=
  [EvLock; EvWrite (header tag module line w); EvWrite msg; EvWrite newline;
   EvFlush; EvUnlock].

(** The texts written to the stream, in order. *)
Definition writes (t : list event) : list string :=
  omap (λ e, match e with EvWrite s => Some s | _ => None end) t.

(** The renames requested, in order. *)
Definition renames (t : list event) : list (string * string) :=
  omap (λ e, match e with EvRename a b => Some (a, b) | _ => None end) t.

(** No percent sign occurs in [s]. *)
Fixpoint percent_free (s : string) : bool :=
  match s with
  | EmptyString => true
  | String c rest => negb (Ascii.eqb c "%") && percent_free rest
  end.

(** A format with one integer slot between two literal parts, and the file
    name it yields for index [i]. *)
Definition slot_pattern (pre post : string) : string := pre ++ "%d" ++ post.
Definition slot_name (pre post : string) (i : Z) : string := pre ++ dec i ++ post.

(** [w'] differs from [w] in the directory and the trace at most. *)
Definition same_process (w w' : world) : Prop :=
  level w' = level w ∧ stderr w' = stderr w ∧ terminal w' = terminal w
  ∧ openable w' = openable w ∧ io_fault w' = io_fault w
  ∧ heap_avail w' = heap_avail w ∧ clock w' = clock w
  ∧ movable w' = movable w.

(** The directory [d'] is [d] after one pass over the indices [0 .. n-1] of
    the files [name 0], [name 1], ...: index 0 is empty, every index between
    1 and [n-1] holds what its predecessor held, index [n] receives the file
    of index [n-1] if there was one and keeps its own otherwise, and no
    other path is touched; a pass over no index changes nothing. *)
Definition shifted (name : Z → string) (n : Z) (d d' : gmap string string) : Prop :=
  (0 < n → d' !! name 0 = None)
  ∧ (∀ k, 1 ≤ k < n → d' !! name k = d !! name (k - 1))
  ∧ (0 < n → d' !! name n = match d !! name (n - 1) with
                            | Some c => Some c
                            | None => d !! name n
                            end)
  ∧ (∀ p, (∀ k, 0 ≤ k ≤ n → p ≠ name k) → d' !! p = d !! p)
  ∧ (n ≤ 0 → d' = d).

(** Lower-case hexadecimal digit of a nibble. *)
Definition hex_digit (n : N) : ascii :=
  match n with
  | 0 => "0" | 1 => "1" | 2 => "2" | 3 => "3" | 4 => "4" | 5 => "5" | 6 => "6"
  | 7 => "7" | 8 => "8" | 9 => "9" | 10 => "a" | 11 => "b" | 12 => "c"
  | 13 => "d" | 14 => "e" | _ => "f"
  end%N%char.

(** The encoding the specification describes: two lower-case hexadecimal
    characters per byte, high nibble first, nothing in between. *)
Fixpoint hex_of_bytes (data : list byte) : string :=
  match data with
  | [] => EmptyString
  | b :: rest =>
    String (hex_digit (Byte.to_N b / 16))
      (String (hex_digit (Byte.to_N b mod 16)) (hex_of_bytes rest))
  end.

(** The file name contains the marker of index 0. *)
Definition has_marker (filename : string) : Prop :=
  ∃ a b, filename = a ++ "-0." ++ b.

(** The name of index [i] that belongs to a file name whose marker starts
    at offset [p]. *)
Definition numbered (filename : string) (p : nat) (i : Z) : string :=
  slot_name (str_take p filename ++ "-") ("." ++ str_plus filename (p + 3)) i.

(** ** Worlds of the examples *)

(** A freshly started process: threshold at Info, [stderr] on the terminal,
    a healthy device, every path openable, every move carried out, the
    directory [d]. *)
Definition boot_world (d : gmap string string) : world :=
  World LOG_INFO (Attached Terminal) d "" (λ _, true) (λ _ _, true) false 4096
        (Timeval 1700000000 250000) [].

(** The process at its second start: the log of the first run exists. *)
Definition second_start : world := boot_world {["log-0.txt" := "first run"]}.

(** A process that finds only the oldest log a retention count of 4 allows. *)
Definition oldest_only : world := boot_world {["log-3.txt" := "oldest"]}.

(** The process at its third start: the logs of two earlier runs exist. *)
Definition third_start : world :=
  boot_world {["log-0.txt" := "run 2"; "log-1.txt" := "run 1"]}.

(** The same process where no log file can be opened. *)
Definition sealed_world (d : gmap string string) : world :=
  World LOG_INFO (Attached Terminal) d "" (λ _, false) (λ _ _, true) false 4096
        (Timeval 1700000000 250000) [].

(** A process whose log file sits on a device that rejects writes. *)
Definition faulty_world : world :=
  World LOG_INFO (Attached (File "log-0.txt")) {["log-0.txt" := ""]} "" (λ _, true)
        (λ _ _, true) true 4096 (Timeval 1700000000 250000) [].

(** One rotation with the pattern and retention count of the examples. *)
Definition rotate4 (w : world) : world :=
  match rotate_logs "log-%d.txt" 4 w with
  | Some (_, w') => w'
  | None => w
  end.

(** One run of a program that keeps at most 4 log files: it opens its log,
    writes one record and ends. The files stay for the next run. *)
Definition one_run (msg : string) (d : gmap string string) : gmap string string :=
  match log_open "log-0.txt" 4 (boot_world d) with
  | Some (_, w) => fs (log_info "main.c" 10 msg w)
  | None => d
  end.

(** ** The signal dumps *)

(** The dumps work on a stream of their own, opened and closed inside the
    call; it is identified with its path. Their calls are not entered in
    the trace, which follows the log stream, the mutex and the renames. *)

(** [fopen(filename, "wt")]: the file is created, or emptied when it exists;
    [None] is the null pointer. What decides whether a path can be opened
    for writing is what decides it for appending. *)
Definition fopen_wt (path : string) (w : world) : option world :=
  if openable w path then Some (with_fs (<[path := EmptyString]> (fs w)) w) else None.

(** [fprintf(fp, ...)] once the text is formatted. *)
Definition fprintf_file (path text : string) (w : world) : Z * world :=
  if io_fault w then (-1, w)
  else (strlen text, with_fs (alter (λ c, c ++ text) path (fs w)) w).

(** [fclose(fp)]: 0, or EOF when the device fails. *)
Definition fclose_file (path : string) (w : world) : Z * world :=
  (if io_fault w then -1 else 0, w).

(** The loop of [dump_passband_signal], [n] iterations still to run from
    index [i]: one [fprintf(fp, "%d\n", (int)signal[i])] each. *)
Fixpoint dump_passband_loop (fp : string) (signal : list Z) (n i : nat) (w : world)
  : option world :=
  match n with
  | O => Some w
  | S n' =>
    s ← signal !! i;
    dump_passband_loop fp signal n' (S i) (snd (fprintf_file fp (dec s ++ newline) w))
  end.

Definition dump_passband_signal (filename : string) (signal : list Z) (len : Z) (w : world)
  : option (Z * world) :=
  match fopen_wt filename w with
  | None => Some (-1, w)
  | Some w1 =>
    w2 ← dump_passband_loop filename signal (Z.to_nat len) 0 w1;
    Some (0, snd (fclose_file filename w2))
  end.

Section Baseband.

(** The values of type [float], and the text the conversion [%f] prints for
    one of them once promoted to [double]. A [float complex] sample is the
    pair of its real and imaginary parts. *)
Context {float : Type} (fmt_f : float → string).

(** The loop of [dump_baseband_signal]: one
    [fprintf(fp, "%f,%f\n", creal(signal[i]), cimag(signal[i]))] each. *)
Fixpoint dump_baseband_loop (fp : string) (signal : list (float * float)) (n i : nat)
    (w : world) : option world :=
  match n with
  | O => Some w
  | S n' =>
    s ← signal !! i;
    dump_baseband_loop fp signal n' (S i)
      (snd (fprintf_file fp (fmt_f (fst s) ++ "," ++ fmt_f (snd s) ++ newline) w))
  end.

Definition dump_baseband_signal (filename : string) (signal : list (float * float))
    (len : Z) (w : world) : option (Z * world) :=
  match fopen_wt filename w with
  | None => Some (-1, w)
  | Some w1 =>
    w2 ← dump_baseband_loop filename signal (Z.to_nat len) 0 w1;
    Some (0, snd (fclose_file filename w2))
  end.

End Baseband.

(** ** Programs over the interface *)

(** A record handed to one of the four emitters that return. *)
Record entry := Entry {
  e_sev : severity;
  e_module : string;
  e_line : Z;
  e_msg : string
}.

Definition emit_entry (e : entry) (w : world) : world :=
  final_world (emitter_call (e_sev e) (e_module e) (e_line e) (e_msg e) w).

(** The entries handed over one after the other. *)
Definition emit_all (es : list entry) (w : world) : world :=
  foldl (λ w e, emit_entry e w) w es.

(** The threshold [lvl] lets the entry pass. *)
Definition admitted (lvl : Z) (e : entry) : bool := min_level (e_sev e) <=? lvl.

Definition entry_line (w : world) (e : entry) : string :=
  log_line (tag_of (e_sev e)) (e_module e) (e_line e) (e_msg e) w.

Definition flat (l : list string) : string := foldr String.append EmptyString l.

(** A call of the interface a client program makes. *)
Inductive call :=
| CallOpen (filename : string) (maxfiles : Z)
| CallClose
| CallLevel (lvl : Z)
| CallEmit (e : entry)
| CallBits2str (data : list byte) (len : Z)
| CallDumpPassband (filename : string) (signal : list Z) (len : Z).

(** One call, its result dropped; [None] where the call is undefined.
    [bits2str] is called without a buffer, and its result is kept by the
    caller. *)
Definition step (c : call) (w : world) : option world :=
  match c with
  | CallOpen filename maxfiles => snd <$> log_open filename maxfiles w
  | CallClose => Some (snd (log_close w))
  | CallLevel lvl => Some (snd (log_level lvl w))
  | CallEmit e => Some (emit_entry e w)
  | CallBits2str data len => snd <$> bits2str data len None w
  | CallDumpPassband filename signal len => snd <$> dump_passband_signal filename signal len w
  end.

Fixpoint run (cs : list call) (w : world) : option world :=
  match cs with
  | [] => Some w
  | c :: rest => w' ← step c w; run rest w'
  end.

Definition is_level_call (c : call) : bool :=
  match c with
  | CallLevel _ => true
  | _ => false
  end.

Definition is_bits2str_call (c : call) : bool :=
  match c with
  | CallBits2str _ _ => true
  | _ => false
  end.

(** ** Reading back *)



(** The lines of a text, each of which must end in a newline; [cur] is the
    part of the current line already read. *)
Fixpoint read_lines (s cur : string) : option (list string) :=
  match s with
  | EmptyString => if String.eqb cur EmptyString then Some [] else None
  | String c rest =>
    if Ascii.eqb c (ascii_of_nat 10) then (cur ::.) <$> read_lines rest EmptyString
    else read_lines rest (cur ++ String c EmptyString)
  end.

Definition parse_int (s : string) : option Z :=
  Z.of_int <$> DecimalString.NilZero.int_of_string s.

(** The samples a dump of a passband signal holds. *)
Definition read_samples (s : string) : option (list Z) :=
  ls ← read_lines s EmptyString; mapM parse_int ls.

(** ** More worlds of the examples *)

(** A freshly started process with [n] bytes left to allocate. *)
Definition tight_world (n : Z) (d : gmap string string) : world :=
  with_heap n (boot_world d).

(** The threshold a sequence of calls leaves, from the threshold [l] before
    it: the argument of the last [log_level] call that was in range. *)
Definition threshold_after (cs : list call) (l : Z) : Z :=
  foldl (λ l c, match c with
                | CallLevel lvl => if (LOG_NONE <=? lvl) && (lvl <=? LOG_ALL) then lvl else l
                | _ => l
                end) l cs.

(** A client session: it raises the threshold, opens a rotating log, writes,
    dumps a signal, tries an invalid threshold, converts two bytes and
    closes the log. *)
Definition session : list call :=
  [CallLevel 9;
   CallOpen "log-0.txt" 3;
   CallEmit (Entry SevError "modem/rx.c" 12 "sync lost");
   CallLevel LOG_ALL;
   CallDumpPassband "pb.txt" [3; -4] 2;
   CallEmit (Entry SevDebug "modem/rx.c" 40 "dumped");
   CallLevel (-1);
   CallBits2str [x01; xfe] 2;
   CallClose].

(** The same session without the conversion. *)
Definition quiet_session : list call :=
  List.filter (λ c, negb (is_bits2str_call c)) session.

(** Three records of different severities. *)
Definition burst : list entry :=
  [Entry SevError "modem/rx.c" 12 "sync lost";
   Entry SevDebug "modem/tx.c" 7 "queue empty";
   Entry SevInfo "main.c" 3 "started"].

(** The directory part of a path: what precedes its last slash, nothing for
    a path in the working directory. *)
Definition dirname (p : string) : string :=
  match strrchr p "/" with
  | Some tail => str_take (String.length p - String.length tail) p
  | None => EmptyString
  end.

(** A system whose only directories are the working directory and [dirs]: a
    file can be moved to a path exactly when the directory of the path is
    one of them. *)
Definition into_dirs (dirs : list string) (src dst : string) : bool :=
  existsb (String.eqb (dirname dst)) (EmptyString :: dirs).

(** A freshly started process that keeps its log in the directory
    "app-0.9", the only one besides the working directory; the log of the
    previous run is there. *)
Definition nested_world : world :=
  World LOG_INFO (Attached Terminal) {["app-0.9/log-0.txt" := "run 1"]} ""
        (λ _, true) (into_dirs ["app-0.9"]) false 4096
        (Timeval 1700000000 250000) [].
(** * Properties *)

(** ** Strings *)

Lemma append_cons (x : ascii) (a b : string) : String x a ++ b = String x (a ++ b).
Proof. reflexivity. Qed.

Lemma append_assoc (a b c : string) : (a ++ b) ++ c = a ++ (b ++ c).
Proof.
  induction a as [|x a IH]; [reflexivity |].
  rewrite !append_cons. now rewrite IH.
Qed.

Lemma length_append (a b : string) :
  String.length (a ++ b) = (String.length a + String.length b)%nat.
Proof.
  induction a as [|x a IH]; [reflexivity |].
  rewrite append_cons. simpl. now rewrite IH.
Qed.

Lemma append_inv_head (a b c : string) : a ++ b = a ++ c → b = c.
Proof.
  induction a as [|x a IH]; intros H; [exact H |].
  rewrite !append_cons in H. injection H as H. now apply IH.
Qed.

Lemma append_inv_tail (a b c : string) : a ++ c = b ++ c → a = b.
Proof.
  revert b. induction a as [|x a IH]; intros [|y b] H.
  - reflexivity.
  - apply (f_equal String.length) in H. rewrite append_cons in H.
    change ("" ++ c) with c in H. simpl in H. rewrite length_append in H. lia.
  - apply (f_equal String.length) in H. rewrite append_cons in H.
    change ("" ++ c) with c in H. simpl in H. rewrite length_append in H. lia.
  - rewrite !append_cons in H. injection H as -> H. f_equal. now apply IH.
Qed.

(** ** Decimal text *)

Lemma dec_inj (i j : Z) : dec i = dec j → i = j.
Proof.
  unfold dec. intros H.
  assert (Hnn : ∀ z, Z.to_int z ≠ Decimal.Pos Decimal.Nil ∧ Z.to_int z ≠ Decimal.Neg Decimal.Nil).
  { intros [|p|p]; simpl; split; try discriminate;
      intros E; injection E as E; exact (DecimalPos.Unsigned.to_uint_nonnil p E). }
  apply DecimalZ.to_int_inj.
  assert (E : DecimalString.NilZero.int_of_string
                (DecimalString.NilZero.string_of_int (Z.to_int i))
              = DecimalString.NilZero.int_of_string
                (DecimalString.NilZero.string_of_int (Z.to_int j))) by now rewrite H.
  rewrite !DecimalString.NilZero.isi in E by apply Hnn.
  now injection E.
Qed.

Lemma uint_text_length (d : Decimal.uint) :
  String.length (DecimalString.NilEmpty.string_of_uint d) = Decimal.nb_digits d.
Proof. induction d; simpl; congruence. Qed.

Lemma of_uint_acc_lower (d : Decimal.uint) (acc : positive) :
  (N.pos acc * 10 ^ N.of_nat (Decimal.nb_digits d) ≤ N.pos (Pos.of_uint_acc d acc))%N.
Proof.
  revert acc. induction d; intros acc; cbn [Pos.of_uint_acc Decimal.nb_digits];
    [ simpl; lia
    | rewrite Nat2N.inj_succ, N.pow_succ_r', N.mul_assoc;
      (etransitivity; [| apply IHd]); apply N.mul_le_mono_r; lia .. ].
Qed.

Lemma nzhead_not_D0 (d d' : Decimal.uint) : Decimal.nzhead d ≠ Decimal.D0 d'.
Proof. induction d; simpl; try discriminate; assumption. Qed.

Lemma pos_digits_bound (p : positive) :
  (10 ^ N.of_nat (Decimal.nb_digits (Pos.to_uint p) - 1) ≤ N.pos p)%N.
Proof.
  pose proof (DecimalPos.Unsigned.of_to p) as Hof.
  pose proof (DecimalPos.Unsigned.to_of (Pos.to_uint p)) as Hto.
  rewrite Hof in Hto. simpl in Hto.
  pose proof (DecimalPos.Unsigned.to_uint_nonzero p) as Hnz.
  pose proof (DecimalPos.Unsigned.to_uint_nonnil p) as Hnn.
  destruct (Pos.to_uint p) as [|l|l|l|l|l|l|l|l|l|l] eqn:E.
  1: congruence.
  1: { exfalso. unfold Decimal.unorm in Hto. simpl in Hto.
       destruct (Decimal.nzhead l) eqn:El; try discriminate.
       - injection Hto as Hl. subst l. apply Hnz. reflexivity.
       - injection Hto as Hl. subst l. exact (nzhead_not_D0 _ _ El). }
  all: simpl in Hof; rewrite <- Hof;
    match goal with |- context [(?a - 1)%nat] =>
      replace (a - 1)%nat with (Decimal.nb_digits l) by (simpl; lia) end;
    (etransitivity; [| apply of_uint_acc_lower]); lia.
Qed.

Lemma dec_length (i : Z) : 0 ≤ i < 10 ^ 9 → (String.length (dec i) ≤ 9)%nat.
Proof.
  intros [Hlo Hhi]. destruct i as [|p|p]; [simpl; lia | | lia].
  unfold dec. simpl Z.to_int. simpl DecimalString.NilZero.string_of_int.
  pose proof (DecimalPos.Unsigned.to_uint_nonnil p) as Hnn.
  pose proof (pos_digits_bound p) as Hb.
  unfold DecimalString.NilZero.string_of_uint.
  destruct (Pos.to_uint p) eqn:E; [congruence | ..];
    rewrite uint_text_length;
    (destruct (le_lt_dec (Decimal.nb_digits (Pos.to_uint p)) 9) as [Hle | Hgt];
     [ rewrite E in Hle; exact Hle
     | exfalso;
       assert (H9 : (10 ^ 9 ≤ 10 ^ N.of_nat (Decimal.nb_digits (Pos.to_uint p) - 1))%N)
         by (apply N.pow_le_mono_r; lia);
       rewrite E in H9; lia ]).
Qed.

(** ** The block shared by the emitters *)

Lemma fprintf_stderr_frame text w :
  trace (snd (fprintf_stderr text w)) = (trace w ++ [EvWrite text])%list
  ∧ level (snd (fprintf_stderr text w)) = level w
  ∧ stderr (snd (fprintf_stderr text w)) = stderr w
  ∧ io_fault (snd (fprintf_stderr text w)) = io_fault w
  ∧ clock (snd (fprintf_stderr text w)) = clock w.
Proof.
  unfold fprintf_stderr.
  destruct (stderr w) as [|[|p]] eqn:Hs, (io_fault w) eqn:Hf; simpl;
    repeat split; assumption.
Qed.

Lemma fflush_stderr_frame w :
  trace (snd (fflush_stderr w)) = (trace w ++ [EvFlush])%list
  ∧ level (snd (fflush_stderr w)) = level w
  ∧ stderr (snd (fflush_stderr w)) = stderr w
  ∧ terminal (snd (fflush_stderr w)) = terminal w
  ∧ fs (snd (fflush_stderr w)) = fs w.
Proof.
  unfold fflush_stderr.
  destruct (stderr w) as [|s] eqn:Hs, (io_fault w); simpl;
    repeat split; assumption.
Qed.

Lemma emit_frame tag module line msg w :
  trace (emit tag module line msg w) = (trace w ++ line_events tag module line msg w)%list
  ∧ level (emit tag module line msg w) = level w
  ∧ stderr (emit tag module line msg w) = stderr w.
Proof.
  unfold emit. fold (basename module).
  set (w1 := pthread_mutex_lock w).
  assert (H1 : trace w1 = (trace w ++ [EvLock])%list ∧ level w1 = level w
               ∧ stderr w1 = stderr w ∧ current_time_ms w1 = current_time_ms w)
    by (subst w1; unfold pthread_mutex_lock, current_time_ms, gettimeofday; simpl; auto).
  destruct H1 as (Ht1 & Hl1 & Hs1 & Hc1). rewrite Hc1.
  fold (header tag module line w).
  set (w2 := snd (fprintf_stderr (header tag module line w) w1)).
  destruct (fprintf_stderr_frame (header tag module line w) w1) as (Ht2 & Hl2 & Hs2 & _).
  fold w2 in Ht2, Hl2, Hs2.
  set (w3 := snd (fprintf_stderr msg w2)).
  destruct (fprintf_stderr_frame msg w2) as (Ht3 & Hl3 & Hs3 & _).
  fold w3 in Ht3, Hl3, Hs3.
  set (w4 := snd (fprintf_stderr newline w3)).
  destruct (fprintf_stderr_frame newline w3) as (Ht4 & Hl4 & Hs4 & _).
  fold w4 in Ht4, Hl4, Hs4.
  set (w5 := snd (fflush_stderr w4)).
  destruct (fflush_stderr_frame w4) as (Ht5 & Hl5 & Hs5 & _).
  fold w5 in Ht5, Hl5, Hs5.
  unfold pthread_mutex_unlock, line_events. simpl.
  rewrite Ht5, Ht4, Ht3, Ht2, Ht1, Hl5, Hl4, Hl3, Hl2, Hl1, Hs5, Hs4, Hs3, Hs2, Hs1.
  repeat rewrite <- app_assoc. simpl. repeat split.
Qed.

Lemma emit_trace tag module line msg w :
  trace (emit tag module line msg w) = (trace w ++ line_events tag module line msg w)%list.
Proof. apply emit_frame. Qed.

Lemma emit_level tag module line msg w :
  level (emit tag module line msg w) = level w.
Proof. apply emit_frame. Qed.

Lemma emit_stderr tag module line msg w :
  stderr (emit tag module line msg w) = stderr w.
Proof. apply emit_frame. Qed.

Lemma fprintf_stderr_lost text w :
  stderr w = Closed ∨ io_fault w = true →
  terminal (snd (fprintf_stderr text w)) = terminal w
  ∧ fs (snd (fprintf_stderr text w)) = fs w.
Proof.
  unfold fprintf_stderr. intros [Hs | Hf].
  - rewrite Hs. split; reflexivity.
  - rewrite Hf. destruct (stderr w); split; reflexivity.
Qed.

(** A write to a closed stream, or to a failing device, reaches no sink. *)
Lemma emit_lost tag module line msg w :
  stderr w = Closed ∨ io_fault w = true →
  terminal (emit tag module line msg w) = terminal w
  ∧ fs (emit tag module line msg w) = fs w.
Proof.
  intros H. unfold emit. fold (basename module).
  set (w1 := pthread_mutex_lock w).
  assert (H1 : (stderr w1 = Closed ∨ io_fault w1 = true)
               ∧ terminal w1 = terminal w ∧ fs w1 = fs w)
    by (subst w1; unfold pthread_mutex_lock; simpl; auto).
  destruct H1 as (Hb1 & Ht1 & Hd1).
  set (w2 := snd (fprintf_stderr _ w1)).
  destruct (fprintf_stderr_lost (dec (current_time_ms w1) ++ "|" ++ tag ++ "|"
              ++ basename module ++ ":" ++ dec line ++ "|") w1 Hb1) as (Ht2 & Hd2).
  destruct (fprintf_stderr_frame (dec (current_time_ms w1) ++ "|" ++ tag ++ "|"
              ++ basename module ++ ":" ++ dec line ++ "|") w1) as (_ & _ & Hs2 & Hf2 & _).
  fold w2 in Ht2, Hd2, Hs2, Hf2.
  assert (Hb2 : stderr w2 = Closed ∨ io_fault w2 = true) by (rewrite Hs2, Hf2; exact Hb1).
  set (w3 := snd (fprintf_stderr msg w2)).
  destruct (fprintf_stderr_lost msg w2 Hb2) as (Ht3 & Hd3).
  destruct (fprintf_stderr_frame msg w2) as (_ & _ & Hs3 & Hf3 & _).
  fold w3 in Ht3, Hd3, Hs3, Hf3.
  assert (Hb3 : stderr w3 = Closed ∨ io_fault w3 = true) by (rewrite Hs3, Hf3; exact Hb2).
  set (w4 := snd (fprintf_stderr newline w3)).
  destruct (fprintf_stderr_lost newline w3 Hb3) as (Ht4 & Hd4).
  fold w4 in Ht4, Hd4.
  destruct (fflush_stderr_frame w4) as (_ & _ & _ & Ht5 & Hd5).
  unfold pthread_mutex_unlock. simpl.
  rewrite Ht5, Hd5, Ht4, Hd4, Ht3, Hd3, Ht2, Hd2, Ht1, Hd1. split; reflexivity.
Qed.

Lemma trace_grows_ne (t : list event) (e : event) (d : list event) :
  t ≠ (t ++ e :: d)%list.
Proof.
  intros H. apply (f_equal length) in H. rewrite length_app in H. simpl in H. lia.
Qed.

(** ** Level control *)

(** C5. [log_level lvl] stores [lvl] as the threshold when it lies between
    [LOG_NONE] and [LOG_ALL], leaves the world as it was otherwise, and in
    both cases returns the threshold in force after the call. *)
Theorem log_level_sets_in_range (lvl : Z) (w : world) :
  (LOG_NONE ≤ lvl ≤ LOG_ALL →
     snd (log_level lvl w) = with_level lvl w ∧ level (snd (log_level lvl w)) = lvl)
  ∧ (lvl < LOG_NONE ∨ LOG_ALL < lvl → snd (log_level lvl w) = w)
  ∧ fst (log_level lvl w) = level (snd (log_level lvl w)).
Proof.
  unfold log_level, LOG_NONE, LOG_ALL.
  destruct (0 <=? lvl) eqn:H0, (lvl <=? 5) eqn:H5; simpl;
    repeat split; try reflexivity; intros; lia.
Qed.

Lemma log_level_sets_in_range_witness :
  (snd (log_level 4 (boot_world ∅)) = with_level 4 (boot_world ∅)
   ∧ level (snd (log_level 4 (boot_world ∅))) = 4)
  ∧ snd (log_level 9 (boot_world ∅)) = boot_world ∅
  ∧ fst (log_level 9 (boot_world ∅)) = LOG_INFO.
Proof.
  split; [| split].
  - apply (log_level_sets_in_range 4). unfold LOG_NONE, LOG_ALL. lia.
  - apply (log_level_sets_in_range 9). unfold LOG_NONE, LOG_ALL. lia.
  - reflexivity.
Defined.

(** ** Emitters *)

Lemma emitter_call_world (s : severity) (module : string) (line : Z) (msg : string)
    (w : world) :
  final_world (emitter_call s module line msg w)
  = if min_level s <=? level w then emit (tag_of s) module line msg w else w.
Proof. destruct s; reflexivity. Qed.

(** C3. An emitter of severity [s] writes its log line (lock, header,
    message, newline, flush, unlock) exactly when the threshold is at least
    the level [s] requires; below it the world, trace included, is left as it
    was, so with the threshold at [LOG_NONE] an info or debug call writes
    nothing to the stream. *)
Theorem emitter_fires_iff_threshold
    (s : severity) (module : string) (line : Z) (msg : string) (w : world) :
  let w' := final_world (emitter_call s module line msg w) in
  (trace w' = (trace w ++ line_events (tag_of s) module line msg w)%list
     ↔ min_level s ≤ level w)
  ∧ (level w < min_level s → w' = w)
  ∧ (level w = LOG_NONE → s = SevInfo ∨ s = SevDebug →
       w' = w ∧ writes (trace w') = writes (trace w)).
Proof.
  cbv zeta. rewrite emitter_call_world.
  destruct (Z.leb_spec (min_level s) (level w)) as [Hle | Hlt].
  - split; [split; [intros _; exact Hle | intros _; apply emit_trace] |].
    split; [intros; lia |].
    intros Hnone Hs. exfalso. rewrite Hnone in Hle.
    destruct Hs as [-> | ->]; vm_compute in Hle; congruence.
  - split.
    + split; [| intros; lia]. intros H. exfalso. exact (trace_grows_ne _ _ _ H).
    + split; [reflexivity | intros; split; reflexivity].
Qed.

Lemma emitter_fires_iff_threshold_witness :
  final_world (emitter_call SevDebug "modem/rx.c" 42 "sync lost"
                 (with_level LOG_NONE (boot_world ∅)))
  = with_level LOG_NONE (boot_world ∅)
  ∧ writes (trace (final_world
                     (emitter_call SevDebug "modem/rx.c" 42 "sync lost"
                        (with_level LOG_NONE (boot_world ∅)))))
    = writes (trace (with_level LOG_NONE (boot_world ∅))).
Proof.
  apply (emitter_fires_iff_threshold SevDebug "modem/rx.c" 42 "sync lost"
           (with_level LOG_NONE (boot_world ∅))).
  - reflexivity.
  - right. reflexivity.
Defined.

(** C4. [log_die] ends the process with exit status 1 from every world,
    whatever the threshold and whether or not the stream accepts the write;
    the ABORT line is written exactly when the threshold is above
    [LOG_NONE]. *)
Theorem log_die_always_exits_1 (module : string) (line : Z) (msg : string) (w : world) :
  ∃ w', log_die module line msg w = Exits 1 w'
    ∧ (trace w' = (trace w ++ line_events "ABORT" module line msg w)%list
         ↔ LOG_NONE < level w)
    ∧ (level w ≤ LOG_NONE → w' = w).
Proof.
  unfold log_die. destruct (LOG_NONE <? level w) eqn:Hl.
  - apply Z.ltb_lt in Hl. eexists. split; [reflexivity |]. split.
    + split; [intros _; exact Hl | intros _; apply emit_trace].
    + intros; lia.
  - apply Z.ltb_ge in Hl. exists w. split; [reflexivity |]. split.
    + split; [| intros; lia]. intros H. exfalso. exact (trace_grows_ne _ _ _ H).
    + reflexivity.
Qed.

(** C10. [log_close] returns 0 from every world and leaves the stream
    closed: the result of [fclose] is not looked at. *)
Theorem log_close_returns_0 (w : world) :
  fst (log_close w) = 0
  ∧ stderr (snd (log_close w)) = Closed
  ∧ trace (snd (log_close w)) = (trace w ++ [EvClose])%list.
Proof.
  unfold log_close, fclose_stderr.
  destruct (stderr w) as [|s], (io_fault w); repeat split.
Qed.

(** [fclose] does fail in some worlds; [log_close] still answers 0 there. *)
Lemma log_close_hides_failure :
  fst (fclose_stderr faulty_world) = -1
  ∧ fst (log_close faulty_world) = 0
  ∧ fst (fclose_stderr (with_stderr Closed (boot_world ∅))) = -1
  ∧ fst (log_close (with_stderr Closed (boot_world ∅))) = 0.
Proof. repeat split. Qed.

(** C6, as the code has it. Below its threshold each of the four emitters
    returns at once and leaves the world, trace included, untouched. In
    every world the call returns to its caller (the process does not exit):
    [log_error] and [log_warning] with the value -1, written or not,
    [log_info] and [log_debug] with no value, their type being [void]. *)
Theorem suppressed_emitters_return_quietly
    (s : severity) (module : string) (line : Z) (msg : string) (w : world) :
  (level w < min_level s →
     emitter_call s module line msg w = Returns (returned_by s) w)
  ∧ (∃ w', emitter_call s module line msg w = Returns (returned_by s) w'
           ∧ level w' = level w ∧ stderr w' = stderr w).
Proof.
  split.
  - intros Hlow.
    destruct s; simpl in *; unfold log_error, log_warning, log_info, log_debug;
      match goal with |- context [?b <=? level w] =>
        destruct (Z.leb_spec b (level w)); [lia | reflexivity] end.
  - destruct s; simpl; unfold log_error, log_warning, log_info, log_debug;
      match goal with |- context [?b <=? level w] =>
        destruct (b <=? level w) end;
      eexists; (split; [reflexivity |]);
      first [ split; reflexivity | split; [apply emit_level | apply emit_stderr] ].
Qed.

Lemma suppressed_emitters_return_quietly_witness :
  emitter_call SevWarning "modem/tx.c" 88 "queue full"
    (with_level LOG_ERRORS (boot_world ∅))
  = Returns (RInt (-1)) (with_level LOG_ERRORS (boot_world ∅)).
Proof.
  apply (suppressed_emitters_return_quietly SevWarning "modem/tx.c" 88 "queue full"
           (with_level LOG_ERRORS (boot_world ∅))).
  reflexivity.
Defined.

(** C6, as stated, fails at [log_info]: with the threshold at [LOG_NONE] the
    call is suppressed and returns, but it hands its caller no value at all,
    hence no sentinel. The same holds for [log_debug]. *)
Lemma info_and_debug_return_no_value :
  level (with_level LOG_NONE (boot_world ∅)) < min_level SevInfo
  ∧ emitter_call SevInfo "modem/rx.c" 42 "carrier detected"
      (with_level LOG_NONE (boot_world ∅))
    = Returns RVoid (with_level LOG_NONE (boot_world ∅))
  ∧ emitter_call SevDebug "modem/rx.c" 43 "gain 12"
      (with_level LOG_NONE (boot_world ∅))
    = Returns RVoid (with_level LOG_NONE (boot_world ∅))
  ∧ (∀ z w', emitter_call SevInfo "modem/rx.c" 42 "carrier detected"
               (with_level LOG_NONE (boot_world ∅))
             ≠ Returns (RInt z) w').
Proof.
  split; [reflexivity |].
  split; [reflexivity |]. split; [reflexivity |].
  intros z w' H. discriminate H.
Qed.

(** ** The line of a record *)

Lemma fprintf_stderr_delivers (s : sink) (text : string) (w : world) :
  stderr w = Attached s → io_fault w = false →
  snd (fprintf_stderr text w) = deliver s text (record (EvWrite text) w).
Proof. intros Hs Hf. unfold fprintf_stderr. now rewrite Hs, Hf. Qed.

(** On a healthy stream an emitted record reaches the sink as one line. *)
Lemma emit_delivers (s : sink) (tag module : string) (line : Z) (msg : string) (w : world) :
  stderr w = Attached s → io_fault w = false →
  terminal (emit tag module line msg w)
  = terminal (deliver s (log_line tag module line msg w) w)
  ∧ fs (emit tag module line msg w)
    = fs (deliver s (log_line tag module line msg w) w).
Proof.
  intros Hs Hf. unfold emit, log_line. fold (basename module).
  set (w1 := pthread_mutex_lock w).
  assert (H1 : stderr w1 = Attached s ∧ io_fault w1 = false
               ∧ current_time_ms w1 = current_time_ms w)
    by (subst w1; unfold pthread_mutex_lock, current_time_ms, gettimeofday; simpl; auto).
  destruct H1 as (Hs1 & Hf1 & Hc1). rewrite Hc1.
  fold (header tag module line w).
  rewrite (fprintf_stderr_delivers s (header tag module line w) w1 Hs1 Hf1).
  set (w2 := deliver s (header tag module line w) (record _ w1)).
  assert (H2 : stderr w2 = Attached s ∧ io_fault w2 = false)
    by (subst w2 w1; destruct s; simpl; auto).
  destruct H2 as (Hs2 & Hf2).
  rewrite (fprintf_stderr_delivers s msg w2 Hs2 Hf2).
  set (w3 := deliver s msg (record _ w2)).
  assert (H3 : stderr w3 = Attached s ∧ io_fault w3 = false)
    by (subst w3; destruct s; simpl; auto).
  destruct H3 as (Hs3 & Hf3).
  rewrite (fprintf_stderr_delivers s newline w3 Hs3 Hf3).
  destruct (fflush_stderr_frame (deliver s newline (record (EvWrite newline) w3)))
    as (_ & _ & _ & Ht & Hd).
  unfold pthread_mutex_unlock. cbn [terminal fs record]. rewrite Ht, Hd.
  subst w3 w2 w1. unfold pthread_mutex_lock.
  destruct s as [|p]; cbn [deliver terminal fs with_terminal with_fs record].
  - split; [now rewrite !append_assoc | reflexivity].
  - split; [reflexivity |].
    rewrite !alter_alter_eq. apply alter_ext.
    intros c _. simpl. now rewrite !append_assoc.
Qed.

(** A record that passes the threshold reaches a healthy sink as the single
    line timestamp|SEVERITY|module:line|message followed by a newline, the
    module being the last component of the path: appended to the terminal,
    or to the file the stream was opened on. *)
Theorem emitted_line_format
    (s : severity) (module : string) (line : Z) (msg : string) (w : world) (k : sink) :
  min_level s ≤ level w → stderr w = Attached k → io_fault w = false →
  match k with
  | Terminal =>
    terminal (final_world (emitter_call s module line msg w))
    = terminal w ++ dec (current_time_ms w) ++ "|" ++ tag_of s ++ "|"
      ++ basename module ++ ":" ++ dec line ++ "|" ++ msg ++ newline
    ∧ fs (final_world (emitter_call s module line msg w)) = fs w
  | File p =>
    fs (final_world (emitter_call s module line msg w))
    = alter (λ c, c ++ dec (current_time_ms w) ++ "|" ++ tag_of s ++ "|"
                  ++ basename module ++ ":" ++ dec line ++ "|" ++ msg ++ newline)
            p (fs w)
    ∧ terminal (final_world (emitter_call s module line msg w)) = terminal w
  end.
Proof.
  intros Hlvl Hs Hf. rewrite emitter_call_world.
  destruct (Z.leb_spec (min_level s) (level w)); [| lia].
  destruct (emit_delivers k (tag_of s) module line msg w Hs Hf) as (Ht & Hd).
  rewrite Ht, Hd. unfold log_line, header.
  destruct k as [|p]; cbn [deliver terminal fs with_terminal with_fs].
  - split; [now rewrite !append_assoc | reflexivity].
  - split; [| reflexivity]. apply alter_ext. intros c _.
    now rewrite !append_assoc.
Qed.

Lemma emitted_line_format_witness :
  terminal (final_world (emitter_call SevError "src/modem/rx.c" 42 "sync lost"
                           (boot_world ∅)))
  = terminal (boot_world ∅) ++ dec (current_time_ms (boot_world ∅)) ++ "|"
    ++ tag_of SevError ++ "|" ++ basename "src/modem/rx.c" ++ ":" ++ dec 42 ++ "|"
    ++ "sync lost" ++ newline
  ∧ fs (final_world (emitter_call SevError "src/modem/rx.c" 42 "sync lost"
                       (boot_world ∅)))
    = fs (boot_world ∅).
Proof.
  apply (emitted_line_format SevError "src/modem/rx.c" 42 "sync lost"
           (boot_world ∅) Terminal).
  - vm_compute. discriminate.
  - reflexivity.
  - reflexivity.
Defined.

Lemma emitted_line_example :
  terminal (final_world (emitter_call SevError "src/modem/rx.c" 42 "sync lost"
                           (boot_world ∅)))
  = "1700000000250|ERROR|rx.c:42|sync lost" ++ newline.
Proof. vm_compute. reflexivity. Qed.

(** ** Directory prefixes *)

Lemma strrchr_slash_free (s : string) : slash_free s = true → strrchr s "/" = None.
Proof.
  induction s as [|c s IH]; [reflexivity |].
  simpl. intros H. apply andb_true_iff in H as [Hc Hs].
  rewrite (IH Hs). now destruct (Ascii.eqb c "/").
Qed.

Lemma strrchr_last_slash (dir file : string) :
  slash_free file = true →
  strrchr (dir ++ "/" ++ file) "/" = Some (String "/" file).
Proof.
  intros Hfile. induction dir as [|c dir IH].
  - change ("" ++ "/" ++ file) with (String "/" file).
    cbn [strrchr]. now rewrite (strrchr_slash_free file Hfile).
  - rewrite append_cons. cbn [strrchr]. now rewrite IH.
Qed.

(** The module shown in a record is the last component of the path given:
    everything up to the last slash is dropped, a path without a slash is
    kept whole. *)
Theorem basename_strips_directories (dir file : string) :
  slash_free file = true →
  basename (dir ++ "/" ++ file) = file ∧ basename file = file.
Proof.
  intros Hfile. unfold basename.
  rewrite (strrchr_last_slash dir file Hfile), (strrchr_slash_free file Hfile).
  split; reflexivity.
Qed.

Lemma basename_strips_directories_witness :
  basename ("src/main/c" ++ "/" ++ "logging.c") = "logging.c"
  ∧ basename "logging.c" = "logging.c".
Proof.
  apply (basename_strips_directories "src/main/c" "logging.c"). reflexivity.
Defined.

(** ** Thresholds are monotone *)

(** Raising the threshold never silences an emitter: one that writes its
    line at threshold [l1] writes it at every threshold [l2] above [l1]. *)
Theorem threshold_monotone
    (s : severity) (module : string) (line : Z) (msg : string) (w : world) (l1 l2 : Z) :
  l1 ≤ l2 →
  trace (final_world (emitter_call s module line msg (with_level l1 w)))
  = (trace w ++ line_events (tag_of s) module line msg w)%list →
  trace (final_world (emitter_call s module line msg (with_level l2 w)))
  = (trace w ++ line_events (tag_of s) module line msg w)%list.
Proof.
  intros Hle. rewrite !emitter_call_world. cbn [level with_level].
  destruct (Z.leb_spec (min_level s) l1) as [H1 | H1].
  - intros _. destruct (Z.leb_spec (min_level s) l2); [| lia].
    rewrite emit_trace. reflexivity.
  - intros H. exfalso. exact (trace_grows_ne _ _ _ H).
Qed.

Lemma threshold_monotone_witness :
  trace (final_world (emitter_call SevWarning "rx.c" 7 "drift"
                        (with_level LOG_ALL (boot_world ∅))))
  = (trace (boot_world ∅) ++ line_events (tag_of SevWarning) "rx.c" 7 "drift"
                               (boot_world ∅))%list.
Proof.
  apply (threshold_monotone SevWarning "rx.c" 7 "drift" (boot_world ∅)
           LOG_WARNINGS LOG_ALL).
  - vm_compute. discriminate.
  - reflexivity.
Defined.

(** ** Formats *)

Lemma format_int_ordinary (c : ascii) (rest : string) (arg : option Z) :
  Ascii.eqb c "%" = false →
  format_int (String c rest) arg = String c <$> format_int rest arg.
Proof. intros H. simpl. rewrite H. reflexivity. Qed.

Lemma format_int_percent_free (s : string) (arg : option Z) :
  percent_free s = true → format_int s arg = Some s.
Proof.
  induction s as [|c s IH]; [reflexivity |].
  intros H. simpl in H. apply andb_true_iff in H as [Hc Hs].
  rewrite format_int_ordinary by (now destruct (Ascii.eqb c "%")).
  now rewrite (IH Hs).
Qed.

Lemma format_int_slot (pre post : string) (i : Z) :
  percent_free pre = true → percent_free post = true →
  format_int (slot_pattern pre post) (Some i) = Some (slot_name pre post i).
Proof.
  intros Hpre Hpost. unfold slot_pattern, slot_name.
  induction pre as [|c pre IH].
  - change ("" ++ "%d" ++ post) with (String "%" (String "d" post)).
    simpl. now rewrite (format_int_percent_free post None Hpost).
  - simpl in Hpre. apply andb_true_iff in Hpre as [Hc Hpre].
    rewrite !(append_cons c pre).
    rewrite format_int_ordinary by (now destruct (Ascii.eqb c "%")).
    now rewrite (IH Hpre).
Qed.

Lemma slot_name_inj (pre post : string) (i j : Z) :
  slot_name pre post i = slot_name pre post j → i = j.
Proof.
  unfold slot_name. intros H.
  apply append_inv_head, append_inv_tail in H. now apply dec_inj.
Qed.

Lemma sprintf_slot (pre post : string) (i : Z) :
  percent_free pre = true → percent_free post = true → 0 ≤ i < 10 ^ 9 →
  sprintf (strlen (slot_pattern pre post) + 8) (slot_pattern pre post) i
  = Some (slot_name pre post i).
Proof.
  intros Hpre Hpost Hi. unfold sprintf.
  rewrite (format_int_slot pre post i Hpre Hpost). simpl.
  pose proof (dec_length i Hi) as Hlen.
  unfold strlen, slot_pattern, slot_name. rewrite !length_append.
  change (String.length "%d") with 2%nat.
  destruct (Z.leb_spec
              (Z.of_nat (String.length pre + (String.length (dec i) + String.length post)) + 1)
              (Z.of_nat (String.length pre + (2 + String.length post)) + 8));
    [reflexivity | lia].
Qed.

(** ** Renaming *)

Lemma rename_frame (src dst : string) (w : world) :
  same_process w (snd (rename src dst w))
  ∧ trace (snd (rename src dst w)) = (trace w ++ [EvRename src dst])%list.
Proof.
  unfold rename, same_process.
  destruct (fs w !! src); [destruct (movable w src dst) |]; simpl; repeat split.
Qed.

Lemma rename_fs (src dst : string) (w : world) :
  fs (snd (rename src dst w))
  = match fs w !! src with
    | Some c => if movable w src dst then <[dst := c]> (delete src (fs w)) else fs w
    | None => fs w
    end.
Proof.
  unfold rename. destruct (fs w !! src); [destruct (movable w src dst) |]; reflexivity.
Qed.

(** A rename the system refuses fails and changes no file. *)
Lemma rename_refused (src dst : string) (w : world) :
  movable w src dst = false →
  fst (rename src dst w) = -1 ∧ fs (snd (rename src dst w)) = fs w.
Proof. unfold rename. intros ->. destruct (fs w !! src); split; reflexivity. Qed.

(** A rename whose source is missing fails and changes no file. *)
Lemma rename_missing (src dst : string) (w : world) :
  fs w !! src = None →
  fst (rename src dst w) = -1 ∧ fs (snd (rename src dst w)) = fs w.
Proof. unfold rename. intros ->. split; reflexivity. Qed.

Lemma same_process_refl (w : world) : same_process w w.
Proof. unfold same_process. repeat split. Qed.

Lemma same_process_trans (a b c : world) :
  same_process a b → same_process b c → same_process a c.
Proof.
  unfold same_process.
  intros (H1 & H2 & H3 & H4 & H5 & H6 & H7 & H8)
         (G1 & G2 & G3 & G4 & G5 & G6 & G7 & G8).
  repeat split; congruence.
Qed.

(** ** One pass of the rotation loop *)

Section Rotation.
Variables pre post : string.
Hypothesis Hpre : percent_free pre = true.
Hypothesis Hpost : percent_free post = true.

Lemma rotate_loop_spec (n : nat) (w : world) :
  Z.of_nat n < 10 ^ 9 →
  ∃ w', rotate_loop (slot_pattern pre post) (strlen (slot_pattern pre post) + 8) n w
        = Some w'
    ∧ same_process w w'
    ∧ trace w' = (trace w ++ ((λ i, EvRename (slot_name pre post i)
                                             (slot_name pre post (i + 1)))
                               <$> rev (seqZ 0 (Z.of_nat n))))%list
    ∧ ((∀ i, 0 ≤ i < Z.of_nat n →
             movable w (slot_name pre post i) (slot_name pre post (i + 1)) = true) →
       shifted (slot_name pre post) (Z.of_nat n) (fs w) (fs w')).
Proof.
  set (pattern := slot_pattern pre post).
  set (name := slot_name pre post).
  set (maxlen := strlen pattern + 8).
  revert w. induction n as [|m IH]; intros w Hn.
  - exists w. split; [reflexivity |]. split; [apply same_process_refl |].
    split; [simpl; now rewrite app_nil_r |].
    intros _. unfold shifted. repeat split; intros; try lia; reflexivity.
  - cbn [rotate_loop].
    unfold maxlen, pattern.
    rewrite (sprintf_slot pre post (Z.of_nat m) Hpre Hpost) by lia.
    rewrite (sprintf_slot pre post (Z.of_nat m + 1) Hpre Hpost) by lia.
    cbn [mbind option_bind].
    fold pattern maxlen name.
    set (w1 := snd (rename (name (Z.of_nat m)) (name (Z.of_nat m + 1)) w)).
    destruct (IH w1 ltac:(lia)) as (w' & Hrun & Hsame & Htrace & Hshift).
    destruct (rename_frame (name (Z.of_nat m)) (name (Z.of_nat m + 1)) w)
      as (Hsame1 & Htrace1).
    pose proof (rename_fs (name (Z.of_nat m)) (name (Z.of_nat m + 1)) w) as Hfs1.
    fold w1 in Hsame1, Htrace1, Hfs1.
    exists w'. split; [exact Hrun |].
    split; [exact (same_process_trans _ _ _ Hsame1 Hsame) |].
    split.
    { rewrite Htrace, Htrace1, seqZ_S, rev_app_distr. simpl.
      rewrite Z.add_0_l, <- app_assoc. reflexivity. }
    intros Hmov.
    rewrite (Hmov (Z.of_nat m)) in Hfs1 by lia.
    assert (Hmov1 : movable w1 = movable w) by apply Hsame1.
    specialize (Hshift ltac:(intros i Hi; rewrite Hmov1; apply Hmov; lia)).
    assert (Hne : ∀ a b : Z, a ≠ b → name a ≠ name b).
    { intros a b Hab E. apply Hab. exact (slot_name_inj pre post a b E). }
    assert (Hold : ∀ p, p ≠ name (Z.of_nat m) → p ≠ name (Z.of_nat m + 1) →
                        fs w1 !! p = fs w !! p).
    { intros p Hp1 Hp2. rewrite Hfs1. destruct (fs w !! name (Z.of_nat m)); [| reflexivity].
      rewrite lookup_insert_ne by congruence. now rewrite lookup_delete_ne by congruence. }
    assert (Hsrc : fs w1 !! name (Z.of_nat m) = None).
    { rewrite Hfs1. destruct (fs w !! name (Z.of_nat m)) eqn:E; [| exact E].
      rewrite lookup_insert_ne by (apply Hne; lia). apply lookup_delete_eq. }
    assert (Hdst : fs w1 !! name (Z.of_nat m + 1)
                   = match fs w !! name (Z.of_nat m) with
                     | Some c => Some c
                     | None => fs w !! name (Z.of_nat m + 1)
                     end).
    { rewrite Hfs1. destruct (fs w !! name (Z.of_nat m)); [| reflexivity].
      apply lookup_insert_eq. }
    destruct Hshift as (S0 & Smid & Stop & Sout & _).
    unfold shifted. rewrite Nat2Z.inj_succ. repeat split; [| | | | intros; lia].
    + intros _. destruct m as [|m'].
      * (* a single iteration: the pass is the rename of index 0 *)
        simpl in Hrun. injection Hrun as <-. exact Hsrc.
      * apply S0. lia.
    + intros k Hk. destruct (Z.eq_dec k (Z.of_nat m)) as [-> | Hkm].
      * rewrite (Stop ltac:(lia)).
        rewrite (Hold (name (Z.of_nat m - 1))) by (apply Hne; lia).
        rewrite Hsrc. now destruct (fs w !! name (Z.of_nat m - 1)).
      * rewrite (Smid k) by lia. apply Hold; apply Hne; lia.
    + intros _. replace (Z.succ (Z.of_nat m) - 1) with (Z.of_nat m) by lia.
      replace (Z.succ (Z.of_nat m)) with (Z.of_nat m + 1) by lia.
      rewrite <- Hdst. apply Sout. intros k Hk. apply Hne. lia.
    + intros p Hp. rewrite Sout by (intros k Hk; apply Hp; lia).
      apply Hold; [apply Hp; lia | replace (Z.of_nat m + 1) with (Z.succ (Z.of_nat m)) by lia;
                                    apply Hp; lia].
Qed.

(** The file of index 0 is moved by the last rename of the pass, when the
    system carries it out, and by no other. *)
Lemma rotate_loop_index0 (n : nat) (w w' : world) :
  (0 < n)%nat → Z.of_nat n < 10 ^ 9 →
  rotate_loop (slot_pattern pre post) (strlen (slot_pattern pre post) + 8) n w = Some w' →
  fs w' !! slot_name pre post 0
  = if movable w (slot_name pre post 0) (slot_name pre post 1) then None
    else fs w !! slot_name pre post 0.
Proof.
  set (name := slot_name pre post).
  assert (Hne : ∀ a b : Z, a ≠ b → name a ≠ name b).
  { intros a b Hab E. apply Hab. exact (slot_name_inj pre post a b E). }
  revert w. induction n as [|m IH]; intros w Hpos Hn Hrun; [lia |].
  cbn [rotate_loop] in Hrun.
  rewrite (sprintf_slot pre post (Z.of_nat m) Hpre Hpost) in Hrun by lia.
  rewrite (sprintf_slot pre post (Z.of_nat m + 1) Hpre Hpost) in Hrun by lia.
  cbn [mbind option_bind] in Hrun. fold name in Hrun.
  set (w1 := snd (rename (name (Z.of_nat m)) (name (Z.of_nat m + 1)) w)) in Hrun.
  pose proof (rename_fs (name (Z.of_nat m)) (name (Z.of_nat m + 1)) w) as Hfs1.
  assert (Hmov1 : movable w1 = movable w)
    by apply (rename_frame (name (Z.of_nat m)) (name (Z.of_nat m + 1)) w).
  fold w1 in Hfs1.
  destruct m as [|m'].
  - cbn [rotate_loop] in Hrun. injection Hrun as <-. rewrite Hfs1.
    change (Z.of_nat 0) with 0. change (0 + 1) with 1.
    destruct (fs w !! name 0) as [c|] eqn:E0.
    + destruct (movable w (name 0) (name 1)); [| exact E0].
      rewrite lookup_insert_ne by (apply Hne; lia). apply lookup_delete_eq.
    + rewrite E0. now destruct (movable w (name 0) (name 1)).
  - rewrite (IH w1 ltac:(lia) ltac:(lia) Hrun), Hmov1.
    destruct (movable w (name 0) (name 1)); [reflexivity |].
    rewrite Hfs1. destruct (fs w !! name (Z.of_nat (S m'))); [| reflexivity].
    destruct (movable w _ _); [| reflexivity].
    rewrite lookup_insert_ne by (apply Hne; lia).
    now rewrite lookup_delete_ne by (apply Hne; lia).
Qed.

(** A pass in which every rename fails, its source missing or the move
    refused, changes no file. *)
Lemma rotate_loop_idle (n : nat) (w w' : world) :
  Z.of_nat n < 10 ^ 9 →
  (∀ i, 0 ≤ i < Z.of_nat n →
        fs w !! slot_name pre post i = None
        ∨ movable w (slot_name pre post i) (slot_name pre post (i + 1)) = false) →
  rotate_loop (slot_pattern pre post) (strlen (slot_pattern pre post) + 8) n w = Some w' →
  fs w' = fs w.
Proof.
  set (name := slot_name pre post).
  revert w. induction n as [|m IH]; intros w Hn Hidle Hrun.
  - cbn [rotate_loop] in Hrun. now injection Hrun as <-.
  - cbn [rotate_loop] in Hrun.
    rewrite (sprintf_slot pre post (Z.of_nat m) Hpre Hpost) in Hrun by lia.
    rewrite (sprintf_slot pre post (Z.of_nat m + 1) Hpre Hpost) in Hrun by lia.
    cbn [mbind option_bind] in Hrun. fold name in Hrun.
    set (w1 := snd (rename (name (Z.of_nat m)) (name (Z.of_nat m + 1)) w)) in Hrun.
    assert (Hmov1 : movable w1 = movable w)
      by apply (rename_frame (name (Z.of_nat m)) (name (Z.of_nat m + 1)) w).
    assert (Hfs1 : fs w1 = fs w).
    { destruct (Hidle (Z.of_nat m) ltac:(lia)) as [Hnone | Href].
      - apply (rename_missing _ _ _ Hnone).
      - apply (rename_refused _ _ _ Href). }
    rewrite <- Hfs1. apply IH; [lia | | exact Hrun].
    intros i Hi. rewrite Hfs1, Hmov1. apply Hidle. lia.
Qed.
End Rotation.

(** ** rotate_logs *)

Lemma in_int_true (z : Z) : INT_MIN ≤ z ≤ INT_MAX → in_int z = true.
Proof.
  intros [Hlo Hhi]. unfold in_int.
  destruct (Z.leb_spec INT_MIN z); [| lia].
  destruct (Z.leb_spec z INT_MAX); [reflexivity | lia].
Qed.

Lemma shifted_nothing_to_move (name : Z → string) (n : Z) (d d' : gmap string string) :
  shifted name n d d' →
  (∀ k, 0 ≤ k < n → d !! name k = None) →
  d' = d.
Proof.
  intros (S0 & Smid & Stop & Sout & Snone) Hnone.
  destruct (Z.le_gt_cases n 0) as [Hn | Hn]; [exact (Snone Hn) |].
  apply map_eq. intros p.
  destruct (decide (Exists (λ k, p = name k) (seqZ 0 (n + 1)))) as [Hex | Hnex].
  - apply Exists_exists in Hex as (k & Hk & ->).
    apply elem_of_seqZ in Hk.
    destruct (Z.eq_dec k 0) as [-> | Hk0].
    + rewrite (S0 ltac:(lia)). symmetry. apply Hnone. lia.
    + destruct (Z.eq_dec k n) as [-> | Hkn].
      * rewrite (Stop ltac:(lia)). now rewrite (Hnone (n - 1)) by lia.
      * rewrite (Smid k) by lia. rewrite (Hnone (k - 1)), (Hnone k) by lia. reflexivity.
  - apply Sout. intros k Hk ->. apply Hnex. apply Exists_exists.
    exists k. split; [apply elem_of_seqZ; lia | reflexivity].
Qed.

(** What a call of [rotate_logs] does when the heap has room for its two
    name buffers and every index fits them. *)
Lemma rotate_logs_run (pre post : string) (maxfiles : Z) (w : world) :
  percent_free pre = true → percent_free post = true →
  maxfiles < 10 ^ 9 →
  2 * (strlen (slot_pattern pre post) + 8) ≤ INT_MAX →
  2 * (strlen (slot_pattern pre post) + 8) ≤ heap_avail w →
  ∃ w', rotate_logs (slot_pattern pre post) maxfiles w = Some (0, w')
    ∧ same_process w w'
    ∧ trace w' = (trace w ++ ((λ i, EvRename (slot_name pre post i)
                                             (slot_name pre post (i + 1)))
                                <$> rev (seqZ 0 maxfiles)))%list
    ∧ ((∀ i, 0 ≤ i < maxfiles →
             movable w (slot_name pre post i) (slot_name pre post (i + 1)) = true) →
       shifted (slot_name pre post) (Z.max 0 maxfiles) (fs w) (fs w'))
    ∧ (1 ≤ maxfiles →
       fs w' !! slot_name pre post 0
       = if movable w (slot_name pre post 0) (slot_name pre post 1) then None
         else fs w !! slot_name pre post 0)
    ∧ ((∀ i, 0 ≤ i < maxfiles →
             fs w !! slot_name pre post i = None
             ∨ movable w (slot_name pre post i) (slot_name pre post (i + 1)) = false) →
       fs w' = fs w).
Proof.
  intros Hpre Hpost Hmax Hint Hheap. unfold rotate_logs, malloc.
  assert (Hpow : 0 < 10 ^ 9) by reflexivity.
  set (maxlen := strlen (slot_pattern pre post) + 8) in *.
  assert (Hlen : 0 ≤ strlen (slot_pattern pre post)) by (unfold strlen; lia).
  rewrite (in_int_true (2 * maxlen)) by (unfold INT_MIN; lia).
  destruct (Z.leb_spec 0 (2 * maxlen)); [| lia].
  destruct (Z.leb_spec (2 * maxlen) (heap_avail w)); [| lia].
  cbn [andb].
  set (w1 := with_heap (heap_avail w - 2 * maxlen) w).
  destruct (rotate_loop_spec pre post Hpre Hpost (Z.to_nat maxfiles) w1 ltac:(lia))
    as (w2 & Hrun & Hsame & Htrace & Hshift).
  fold maxlen in Hrun.
  pose proof (rotate_loop_index0 pre post Hpre Hpost (Z.to_nat maxfiles) w1 w2) as Hzero.
  pose proof (rotate_loop_idle pre post Hpre Hpost (Z.to_nat maxfiles) w1 w2) as Hidle.
  fold maxlen in Hzero, Hidle.
  rewrite Hrun. cbn [mbind option_bind].
  eexists. split; [reflexivity |].
  destruct Hsame as (H1 & H2 & H3 & H4 & H5 & H6 & H7 & H8).
  split; [| split; [| split; [| split]]].
  - unfold same_process, free. simpl.
    rewrite H1, H2, H3, H4, H5, H6, H7, H8. subst w1. simpl. repeat split. lia.
  - unfold free. simpl. rewrite Htrace. subst w1. simpl.
    destruct (Z.le_gt_cases maxfiles 0) as [Hneg | Hpos].
    + rewrite (seqZ_nil 0 maxfiles) by lia.
      replace (Z.of_nat (Z.to_nat maxfiles)) with 0 by lia. reflexivity.
    + now rewrite Z2Nat.id by lia.
  - intros Hmov. unfold free. cbn [fs with_heap].
    replace (Z.max 0 maxfiles) with (Z.of_nat (Z.to_nat maxfiles)) by lia.
    apply Hshift. intros i Hi. apply Hmov. lia.
  - intros Hpos. unfold free. cbn [fs with_heap].
    apply Hzero; [lia | lia | exact Hrun].
  - intros Hno. unfold free. cbn [fs with_heap].
    apply Hidle; [lia | | exact Hrun].
    intros i Hi. apply Hno. lia.
Qed.

(** C2, amended. [rotate_logs] requests its renames in descending index
    order: for [i] from [maxfiles - 1] down to 0, the file of index [i] to
    index [i + 1], and nothing else. It returns 0 whatever becomes of them:
    a rename whose source is missing changes nothing, so a directory without
    any of the numbered files comes back unchanged. After the pass no file
    is left at index 0, unless the system refused to move the file of index
    0: then it is still where it was. *)
Theorem rotate_logs_descending_renames
    (pre post : string) (maxfiles : Z) (w : world) :
  percent_free pre = true → percent_free post = true →
  1 ≤ maxfiles < 10 ^ 9 →
  2 * (strlen (slot_pattern pre post) + 8) ≤ INT_MAX →
  2 * (strlen (slot_pattern pre post) + 8) ≤ heap_avail w →
  ∃ w', rotate_logs (slot_pattern pre post) maxfiles w = Some (0, w')
    ∧ trace w' = (trace w ++ ((λ i, EvRename (slot_name pre post i)
                                             (slot_name pre post (i + 1)))
                                <$> rev (seqZ 0 maxfiles)))%list
    ∧ fs w' !! slot_name pre post 0
      = (if movable w (slot_name pre post 0) (slot_name pre post 1) then None
         else fs w !! slot_name pre post 0)
    ∧ ((∀ i, 0 ≤ i < maxfiles → fs w !! slot_name pre post i = None) →
       fs w' = fs w).
Proof.
  intros Hpre Hpost [Hlo Hhi] Hint Hheap.
  destruct (rotate_logs_run pre post maxfiles w Hpre Hpost Hhi Hint Hheap)
    as (w' & Hrun & _ & Htrace & _ & Hzero & Hidle).
  exists w'. split; [exact Hrun |]. split; [exact Htrace |]. split.
  - apply Hzero. exact Hlo.
  - intros Hnone. apply Hidle. intros i Hi. left. now apply Hnone.
Qed.

Lemma rotate_logs_descending_renames_witness :
  ∃ w', rotate_logs (slot_pattern "log-" ".txt") 3 third_start = Some (0, w')
    ∧ trace w' = (trace third_start
                  ++ ((λ i, EvRename (slot_name "log-" ".txt" i)
                                     (slot_name "log-" ".txt" (i + 1)))
                        <$> rev (seqZ 0 3)))%list
    ∧ fs w' !! slot_name "log-" ".txt" 0
      = (if movable third_start (slot_name "log-" ".txt" 0) (slot_name "log-" ".txt" 1)
         then None
         else fs third_start !! slot_name "log-" ".txt" 0)
    ∧ ((∀ i, 0 ≤ i < 3 → fs third_start !! slot_name "log-" ".txt" i = None) →
       fs w' = fs third_start).
Proof.
  apply (rotate_logs_descending_renames "log-" ".txt" 3 third_start).
  - reflexivity.
  - reflexivity.
  - split; [lia | reflexivity].
  - vm_compute. discriminate.
  - vm_compute. discriminate.
Defined.

(** C2, as stated, fails where the system refuses a rename whose source
    exists. The log is kept in the directory app-0.9, and no directory
    app-1.9 exists: the pass requests its two renames in descending order
    and returns 0, but the file of index 0 is still at index 0. *)
Lemma refused_rename_leaves_index_0 :
  fs nested_world !! "app-0.9/log-0.txt" = Some "run 1"
  ∧ movable nested_world "app-0.9/log-0.txt" "app-1.9/log-0.txt" = false
  ∧ (λ '(r, w'), (r, fs w' !! "app-0.9/log-0.txt", fs w', renames (trace w')))
      <$> rotate_logs "app-%d.9/log-0.txt" 2 nested_world
    = Some (0, Some "run 1", {["app-0.9/log-0.txt" := "run 1"]},
            [("app-1.9/log-0.txt", "app-2.9/log-0.txt");
             ("app-0.9/log-0.txt", "app-1.9/log-0.txt")]).
Proof. repeat split; vm_compute; reflexivity. Qed.

(** The requests of the example, spelled out: index 2 first, index 0 last. *)
Lemma rotate_logs_order_example :
  trace <$> (snd <$> rotate_logs "log-%d.txt" 3 third_start)
  = Some [EvRename "log-2.txt" "log-3.txt"; EvRename "log-1.txt" "log-2.txt";
          EvRename "log-0.txt" "log-1.txt"].
Proof. vm_compute. reflexivity. Qed.

(** C1, on the code. With [maxfiles = 4] a lone file at index 0 is at index
    3 after three rotations, and at index 4 after the fourth: it is not
    discarded, a rotated file sits at an index that is not below
    [maxfiles], and a file that was at index [maxfiles - 1 = 3] is renamed
    to index 4 instead of being lost. A fifth rotation leaves it there.
    Seen from [log_open]: after five runs with a retention count of 4 the
    directory holds five log files, the first run's among them. *)
Theorem rotation_keeps_index_maxfiles :
  fs (rotate4 (rotate4 (rotate4 second_start))) = {["log-3.txt" := "first run"]}
  ∧ fs (rotate4 (rotate4 (rotate4 (rotate4 second_start))))
    = {["log-4.txt" := "first run"]}
  ∧ fs (rotate4 (rotate4 (rotate4 (rotate4 (rotate4 second_start)))))
    = {["log-4.txt" := "first run"]}
  ∧ (λ '(r, w'), (r, fs w', trace w')) <$> rotate_logs "log-%d.txt" 4 oldest_only
    = Some (0, {["log-4.txt" := "oldest"]},
            [EvRename "log-3.txt" "log-4.txt"; EvRename "log-2.txt" "log-3.txt";
             EvRename "log-1.txt" "log-2.txt"; EvRename "log-0.txt" "log-1.txt"])
  ∧ one_run "run 5" (one_run "run 4" (one_run "run 3" (one_run "run 2"
      (one_run "run 1" ∅))))
    = {["log-0.txt" := "1700000000250|INFO|main.c:10|run 5" ++ newline;
        "log-1.txt" := "1700000000250|INFO|main.c:10|run 4" ++ newline;
        "log-2.txt" := "1700000000250|INFO|main.c:10|run 3" ++ newline;
        "log-3.txt" := "1700000000250|INFO|main.c:10|run 2" ++ newline;
        "log-4.txt" := "1700000000250|INFO|main.c:10|run 1" ++ newline]}.
Proof. repeat split; vm_compute; reflexivity. Qed.

(** What one rotation does where the system carries out every rename: the
    file of every index from 0 to [maxfiles - 1] ends one index higher, the
    one of index [maxfiles - 1] at index [maxfiles]; index 0 is left empty
    and paths outside the chain are not touched. *)
Theorem rotate_logs_shifts_every_index
    (pre post : string) (maxfiles : Z) (w : world) :
  percent_free pre = true → percent_free post = true →
  1 ≤ maxfiles < 10 ^ 9 →
  2 * (strlen (slot_pattern pre post) + 8) ≤ INT_MAX →
  2 * (strlen (slot_pattern pre post) + 8) ≤ heap_avail w →
  (∀ i, 0 ≤ i < maxfiles →
        movable w (slot_name pre post i) (slot_name pre post (i + 1)) = true) →
  ∃ w', rotate_logs (slot_pattern pre post) maxfiles w = Some (0, w')
    ∧ same_process w w'
    ∧ shifted (slot_name pre post) maxfiles (fs w) (fs w')
    ∧ (∀ k c, 0 ≤ k ≤ maxfiles - 1 → fs w !! slot_name pre post k = Some c →
              fs w' !! slot_name pre post (k + 1) = Some c).
Proof.
  intros Hpre Hpost [Hlo Hhi] Hint Hheap Hmov.
  destruct (rotate_logs_run pre post maxfiles w Hpre Hpost Hhi Hint Hheap)
    as (w' & Hrun & Hsame & _ & Hshift & _).
  specialize (Hshift Hmov).
  rewrite Z.max_r in Hshift by lia.
  exists w'. split; [exact Hrun |]. split; [exact Hsame |]. split; [exact Hshift |].
  destruct Hshift as (S0 & Smid & Stop & Sout & _).
  intros k c Hk Hc. destruct (Z.eq_dec k (maxfiles - 1)) as [-> | Hne].
  - replace (maxfiles - 1 + 1) with maxfiles by lia.
    rewrite (Stop ltac:(lia)). now rewrite Hc.
  - rewrite (Smid (k + 1)) by lia. now replace (k + 1 - 1) with k by lia.
Qed.

Lemma rotate_logs_shifts_every_index_witness :
  ∃ w', rotate_logs (slot_pattern "log-" ".txt") 4 oldest_only = Some (0, w')
    ∧ same_process oldest_only w'
    ∧ shifted (slot_name "log-" ".txt") 4 (fs oldest_only) (fs w')
    ∧ (∀ k c, 0 ≤ k ≤ 4 - 1 →
              fs oldest_only !! slot_name "log-" ".txt" k = Some c →
              fs w' !! slot_name "log-" ".txt" (k + 1) = Some c).
Proof.
  apply (rotate_logs_shifts_every_index "log-" ".txt" 4 oldest_only).
  - reflexivity.
  - reflexivity.
  - split; [lia | reflexivity].
  - vm_compute. discriminate.
  - vm_compute. discriminate.
  - intros i Hi. reflexivity.
Defined.

(** ** Searching the marker *)

Lemma prefix_true (n h : string) : String.prefix n h = true → ∃ b, h = n ++ b.
Proof.
  revert h. induction n as [|c n IH]; intros h H.
  - exists h. reflexivity.
  - destruct h as [|c' h]; [discriminate |]. simpl in H.
    destruct (ascii_dec c c') as [<- | _]; [| discriminate].
    destruct (IH h H) as (b & ->). exists b. reflexivity.
Qed.

Lemma prefix_append (n b : string) : String.prefix n (n ++ b) = true.
Proof.
  induction n as [|c n IH]; [now destruct b |].
  rewrite append_cons. simpl. destruct (ascii_dec c c); [exact IH | congruence].
Qed.

Lemma str_plus_append (a b : string) : str_plus (a ++ b) (String.length a) = b.
Proof.
  induction a as [|c a IH]; [now destruct b |].
  rewrite append_cons. simpl. exact IH.
Qed.

Lemma strstr_eq (h n : string) :
  strstr h n = if String.prefix n h then Some 0%nat
               else match h with
                    | EmptyString => None
                    | String _ rest => S <$> strstr rest n
                    end.
Proof. destruct h; reflexivity. Qed.

Lemma strstr_some (h n : string) (p : nat) :
  strstr h n = Some p →
  h = str_take p h ++ n ++ str_plus h (p + String.length n).
Proof.
  revert p. induction h as [|c h IH]; intros p H; rewrite strstr_eq in H.
  - destruct (String.prefix n "") eqn:Hp; [| discriminate].
    injection H as <-. apply prefix_true in Hp as (b & Hb).
    destruct n; [reflexivity |]. rewrite append_cons in Hb. discriminate.
  - destruct (String.prefix n (String c h)) eqn:Hp.
    + injection H as <-. apply prefix_true in Hp as (b & Hb).
      rewrite Hb, Nat.add_0_l, str_plus_append. now destruct (n ++ b).
    + destruct (strstr h n) as [q|] eqn:Hq; [| discriminate].
      injection H as <-. specialize (IH q eq_refl).
      cbn [str_take str_plus Nat.add]. rewrite append_cons. now rewrite <- IH.
Qed.

Lemma strstr_none (h n : string) :
  strstr h n = None → ∀ a b, h ≠ a ++ n ++ b.
Proof.
  induction h as [|c h IH]; intros H a b E; rewrite strstr_eq in H.
  - destruct a; [| rewrite append_cons in E; discriminate].
    change ("" ++ n ++ b) with (n ++ b) in E.
    rewrite E, prefix_append in H. discriminate.
  - destruct (String.prefix n (String c h)) eqn:Hp; [discriminate |].
    destruct (strstr h n) eqn:Hq; [discriminate |].
    destruct a as [|c' a].
    + change ("" ++ n ++ b) with (n ++ b) in E.
      rewrite E, prefix_append in Hp. discriminate.
    + rewrite append_cons in E. injection E as _ E. exact (IH eq_refl a b E).
Qed.

Lemma strstr_marker (filename : string) :
  has_marker filename ↔ is_Some (strstr filename "-0.").
Proof.
  split.
  - intros (a & b & E). destruct (strstr filename "-0.") eqn:Hs; [eauto |].
    exfalso. exact (strstr_none _ _ Hs a b E).
  - intros [p Hp]. apply strstr_some in Hp. unfold has_marker. eauto.
Qed.

Lemma percent_free_append (a b : string) :
  percent_free (a ++ b) = percent_free a && percent_free b.
Proof.
  induction a as [|c a IH]; [reflexivity |].
  rewrite append_cons. simpl. rewrite IH. now rewrite andb_assoc.
Qed.

(** The pattern built from a marked file name has one slot between
    percent-free parts, is one character longer than the name, and yields
    the name itself for index 0. *)
Lemma make_pattern_slot (filename : string) (p : nat) :
  strstr filename "-0." = Some p →
  make_pattern filename p
  = slot_pattern (str_take p filename ++ "-") ("." ++ str_plus filename (p + 3))
  ∧ strlen (make_pattern filename p) = strlen filename + 1
  ∧ numbered filename p 0 = filename
  ∧ (percent_free filename = true →
     percent_free (str_take p filename ++ "-") = true
     ∧ percent_free ("." ++ str_plus filename (p + 3)) = true).
Proof.
  intros Hs. apply strstr_some in Hs. change (String.length "-0.") with 3%nat in Hs.
  unfold make_pattern, numbered, slot_pattern, slot_name.
  set (a := str_take p filename) in *. set (b := str_plus filename (p + 3)) in *.
  clearbody a b. subst filename.
  split; [| split; [| split]].
  - rewrite !append_assoc. reflexivity.
  - unfold strlen. rewrite !length_append. simpl. lia.
  - rewrite !append_assoc. reflexivity.
  - intros Hpf. rewrite !percent_free_append in Hpf.
    rewrite !percent_free_append.
    apply andb_true_iff in Hpf as (Ha & Hb). apply andb_true_iff in Hb as (_ & Hb).
    rewrite Ha, Hb. split; reflexivity.
Qed.

(** ** log_open *)

Lemma renames_app (s t : list event) : renames (s ++ t) = (renames s ++ renames t)%list.
Proof. unfold renames. apply omap_app. Qed.

Lemma renames_of_requests (f g : Z → string) (l : list Z) :
  renames ((λ i, EvRename (f i) (g i)) <$> l) = (λ i, (f i, g i)) <$> l.
Proof.
  induction l as [|i l IH]; [reflexivity |].
  cbn. unfold renames in IH. now rewrite IH.
Qed.

Lemma warning_frame (line : Z) (msg : string) (w : world) :
  fst (warning line msg w) = -1
  ∧ stderr (snd (warning line msg w)) = stderr w
  ∧ level (snd (warning line msg w)) = level w
  ∧ ∃ tail, trace (snd (warning line msg w)) = (trace w ++ tail)%list
            ∧ renames tail = [].
Proof.
  unfold warning, log_warning. destruct (LOG_WARNINGS <=? level w); cbn [fst snd].
  - split; [reflexivity |]. split; [apply emit_stderr |]. split; [apply emit_level |].
    eexists. split; [apply emit_trace | reflexivity].
  - repeat split. exists []. split; [now rewrite app_nil_r | reflexivity].
Qed.

(** The last two statements of [log_open]: one [freopen], then at most the
    events of a warning. *)
Lemma reopen_frame (filename : string) (w : world) :
  ∃ tail, trace (snd (reopen filename w)) = (trace w ++ EvFreopen filename :: tail)%list
          ∧ renames tail = []
          ∧ level (snd (reopen filename w)) = level w.
Proof.
  unfold reopen, freopen_append. destruct (openable w filename).
  - exists []. simpl. repeat split.
  - destruct (warning_frame 54 "Cannot open log file"
                (with_stderr Closed (record (EvFreopen filename) w)))
      as (_ & _ & Hl & tail & Ht & Hr).
    exists tail. rewrite Ht, Hl. simpl. rewrite <- app_assoc. repeat split. exact Hr.
Qed.

Lemma malloc_some (size : Z) (w : world) :
  0 ≤ size ≤ heap_avail w →
  malloc size w = Some (with_heap (heap_avail w - size) w).
Proof.
  intros [H0 H1]. unfold malloc.
  destruct (Z.leb_spec 0 size); [| lia].
  destruct (Z.leb_spec size (heap_avail w)); [reflexivity | lia].
Qed.

Lemma malloc_frame (size : Z) (w w1 : world) :
  malloc size w = Some w1 →
  trace w1 = trace w ∧ fs w1 = fs w ∧ stderr w1 = stderr w ∧ level w1 = level w.
Proof.
  unfold malloc. destruct ((0 <=? size) && (size <=? heap_avail w)); [| discriminate].
  intros H. injection H as <-. repeat split.
Qed.

(** A marked name and a retention count above 1: the renames come first,
    then the [freopen], and no rename after it. *)
Lemma log_open_marked_run (filename : string) (maxfiles : Z) (w : world) :
  1 < maxfiles ∧ has_marker filename →
  percent_free filename = true → maxfiles < 10 ^ 9 →
  2 * (strlen filename + 9) ≤ INT_MAX →
  3 * strlen filename + 26 ≤ heap_avail w →
  ∃ p r w' tail,
    strstr filename "-0." = Some p
    ∧ log_open filename maxfiles w = Some (r, w')
    ∧ trace w' = (trace w
                  ++ ((λ i, EvRename (numbered filename p i) (numbered filename p (i + 1)))
                        <$> rev (seqZ 0 maxfiles))
                  ++ EvFreopen filename :: tail)%list
    ∧ renames tail = [].
Proof.
  intros [Hmax Hmark] Hpf Hlim Hint Hheap.
  assert (Hlen0 : 0 ≤ strlen filename) by (unfold strlen; lia).
  apply strstr_marker in Hmark as [p Hp].
  destruct (make_pattern_slot filename p Hp) as (Hpat & Hlen & _ & Hfree).
  destruct (Hfree Hpf) as (Hpre & Hpost).
  unfold log_open. destruct (Z.ltb_spec 1 maxfiles); [| lia].
  rewrite malloc_some by lia. rewrite Hp.
  set (w1 := with_heap (heap_avail w - (strlen filename + 8)) w).
  set (pre := str_take p filename ++ "-") in *.
  set (post := "." ++ str_plus filename (p + 3)) in *.
  assert (Hroom : 2 * (strlen (slot_pattern pre post) + 8) ≤ heap_avail w1)
    by (rewrite <- Hpat, Hlen; subst w1; simpl; lia).
  assert (Hint' : 2 * (strlen (slot_pattern pre post) + 8) ≤ INT_MAX)
    by (rewrite <- Hpat, Hlen; lia).
  destruct (rotate_logs_run pre post maxfiles w1 Hpre Hpost Hlim Hint' Hroom)
    as (w2 & Hrun & _ & Htrace & _).
  rewrite Hpat, Hrun. cbn [fmap option_fmap option_map mbind option_bind snd].
  destruct (reopen_frame filename (free (strlen filename + 8) w2))
    as (tail & Ht & Hr & _).
  exists p, (fst (reopen filename (free (strlen filename + 8) w2))),
    (snd (reopen filename (free (strlen filename + 8) w2))), tail.
  split; [reflexivity |]. split; [now rewrite <- surjective_pairing |].
  split; [| exact Hr].
  rewrite Ht. unfold free. cbn [trace with_heap]. rewrite Htrace.
  subst w1. cbn [trace with_heap]. unfold numbered. fold pre post.
  now rewrite <- app_assoc.
Qed.

(** No marker, or a retention count of 1 or less: the run is defined for
    every input and requests no rename. *)
Lemma log_open_unmarked_run (filename : string) (maxfiles : Z) (w : world) :
  ¬ (1 < maxfiles ∧ has_marker filename) →
  ∃ r w', log_open filename maxfiles w = Some (r, w')
    ∧ renames (trace w') = renames (trace w).
Proof.
  intros Hno.
  assert (Hquiet : ∀ v : world, trace v = trace w →
            ∃ r w', Some (reopen filename v) = Some (r, w')
                    ∧ renames (trace w') = renames (trace w)).
  { intros v Hv. destruct (reopen_frame filename v) as (tail & Ht & Hr & _).
    exists (fst (reopen filename v)), (snd (reopen filename v)).
    split; [now rewrite <- surjective_pairing |].
    rewrite Ht, Hv, renames_app. cbn. fold (renames tail).
    rewrite Hr. apply app_nil_r. }
  unfold log_open. destruct (Z.ltb_spec 1 maxfiles) as [Hmax | Hmax].
  - destruct (strstr filename "-0.") as [p|] eqn:Hp.
    { exfalso. apply Hno. split; [exact Hmax |]. apply strstr_marker. eauto. }
    destruct (malloc (strlen filename + 8) w) as [w1|] eqn:Hm.
    + cbn [mbind option_bind]. apply Hquiet. unfold free. cbn [trace with_heap].
      now destruct (malloc_frame _ _ _ Hm) as (-> & _).
    + destruct (warning_frame 44 "Out of memory" w) as (_ & _ & _ & tail & Ht & Hr).
      exists (fst (warning 44 "Out of memory" w)), (snd (warning 44 "Out of memory" w)).
      split; [now rewrite <- surjective_pairing |].
      rewrite Ht, renames_app, Hr. apply app_nil_r.
  - apply Hquiet. reflexivity.
Qed.

(** C7. [log_open] runs the rotation before it reopens the stream exactly
    for a retention count above 1 and a file name that contains "-0.": then
    the renames of [rotate_logs], from index [maxfiles - 1] down to 0 on the
    names obtained by replacing the first marker, come first, the [freopen]
    follows and no rename comes after it. In every other case the call
    requests no rename at all. So a run requests renames if and only if the
    count is above 1 and the name carries the marker. *)
Theorem log_open_rotates_iff_marked (filename : string) (maxfiles : Z) (w : world) :
  (1 < maxfiles ∧ has_marker filename →
   percent_free filename = true → maxfiles < 10 ^ 9 →
   2 * (strlen filename + 9) ≤ INT_MAX →
   3 * strlen filename + 26 ≤ heap_avail w →
   ∃ p r w' tail,
     strstr filename "-0." = Some p
     ∧ log_open filename maxfiles w = Some (r, w')
     ∧ trace w' = (trace w
                   ++ ((λ i, EvRename (numbered filename p i) (numbered filename p (i + 1)))
                         <$> rev (seqZ 0 maxfiles))
                   ++ EvFreopen filename :: tail)%list
     ∧ renames tail = [])
  ∧ (¬ (1 < maxfiles ∧ has_marker filename) →
     ∃ r w', log_open filename maxfiles w = Some (r, w')
       ∧ renames (trace w') = renames (trace w))
  ∧ (percent_free filename = true → maxfiles < 10 ^ 9 →
     2 * (strlen filename + 9) ≤ INT_MAX →
     3 * strlen filename + 26 ≤ heap_avail w →
     ∃ r w', log_open filename maxfiles w = Some (r, w')
       ∧ (renames (trace w') ≠ renames (trace w)
          ↔ 1 < maxfiles ∧ has_marker filename)).
Proof.
  split; [apply log_open_marked_run |]. split; [apply log_open_unmarked_run |].
  intros Hpf Hlim Hint Hheap.
  assert (Hdec : (1 < maxfiles ∧ has_marker filename)
                 ∨ ¬ (1 < maxfiles ∧ has_marker filename)).
  { destruct (Z.lt_ge_cases 1 maxfiles) as [Hmax | Hmax]; [| right; lia].
    destruct (strstr filename "-0.") as [p|] eqn:Hp.
    - left. split; [exact Hmax | apply strstr_marker; eauto].
    - right. intros [_ Hm]. apply strstr_marker in Hm as [q Hq]. congruence. }
  destruct Hdec as [Hcond | Hcond].
  - destruct (log_open_marked_run filename maxfiles w Hcond Hpf Hlim Hint Hheap)
      as (q & r & w' & tail & _ & Hrun & Htr & Htail).
    exists r, w'. split; [exact Hrun |].
    split; [intros _; exact Hcond |]. intros _ E.
    rewrite Htr, !renames_app, renames_of_requests in E.
    cbn in E. fold (renames tail) in E. rewrite Htail, app_nil_r in E.
    apply (f_equal length) in E.
    rewrite length_app, length_fmap, length_rev, length_seqZ in E. lia.
  - destruct (log_open_unmarked_run filename maxfiles w Hcond) as (r & w' & Hrun & Heq).
    exists r, w'. split; [exact Hrun |]. split; [congruence | tauto].
Qed.

Lemma log_open_rotates_iff_marked_witness :
  ∃ p r w' tail,
    strstr "log-0.txt" "-0." = Some p
    ∧ log_open "log-0.txt" 3 third_start = Some (r, w')
    ∧ trace w'
      = (trace third_start
         ++ ((λ i, EvRename (numbered "log-0.txt" p i) (numbered "log-0.txt" p (i + 1)))
               <$> rev (seqZ 0 3))
         ++ EvFreopen "log-0.txt" :: tail)%list
    ∧ renames tail = [].
Proof.
  apply (proj1 (log_open_rotates_iff_marked "log-0.txt" 3 third_start)).
  - split; [lia | exists "log", "txt"; reflexivity].
  - reflexivity.
  - reflexivity.
  - vm_compute. discriminate.
  - vm_compute. discriminate.
Defined.

(** The run of the specification's example: [log_open("log-0.txt", 3)] with
    log-0.txt and log-1.txt present. *)
Lemma log_open_example :
  (λ '(r, w'), (r, stderr w', fs w', trace w')) <$> log_open "log-0.txt" 3 third_start
  = Some (0, Attached (File "log-0.txt"),
          {["log-0.txt" := ""; "log-1.txt" := "run 2"; "log-2.txt" := "run 1"]},
          [EvRename "log-2.txt" "log-3.txt"; EvRename "log-1.txt" "log-2.txt";
           EvRename "log-0.txt" "log-1.txt"; EvFreopen "log-0.txt"]).
Proof. vm_compute. reflexivity. Qed.

(** Opening a marked log file that can be opened, with a retention count
    above 1, where the allocations succeed and the system carries out every
    rename of the numbered files: the call returns 0; every numbered file
    from index 0 to [maxfiles - 1] is found one index higher; the name
    itself, index 0, is a fresh empty file and the stream is attached to it;
    the threshold, the terminal and the heap are as before. *)
Theorem log_open_rotates_then_attaches (filename : string) (maxfiles : Z) (w : world) :
  1 < maxfiles < 10 ^ 9 → has_marker filename → percent_free filename = true →
  2 * (strlen filename + 9) ≤ INT_MAX →
  3 * strlen filename + 26 ≤ heap_avail w →
  openable w filename = true →
  (∀ p i, strstr filename "-0." = Some p → 0 ≤ i < maxfiles →
          movable w (numbered filename p i) (numbered filename p (i + 1)) = true) →
  ∃ p w', strstr filename "-0." = Some p
    ∧ numbered filename p 0 = filename
    ∧ log_open filename maxfiles w = Some (0, w')
    ∧ stderr w' = Attached (File filename)
    ∧ fs w' !! filename = Some ""
    ∧ (∀ k c, 0 ≤ k ≤ maxfiles - 1 →
              fs w !! numbered filename p k = Some c →
              fs w' !! numbered filename p (k + 1) = Some c)
    ∧ level w' = level w ∧ terminal w' = terminal w
    ∧ heap_avail w' = heap_avail w.
Proof.
  intros [Hmax Hlim] Hmark Hpf Hint Hheap Hopen Hmov.
  assert (Hlen0 : 0 ≤ strlen filename) by (unfold strlen; lia).
  apply strstr_marker in Hmark as [p Hp].
  specialize (Hmov p).
  destruct (make_pattern_slot filename p Hp) as (Hpat & Hlen & Hzero & Hfree).
  destruct (Hfree Hpf) as (Hpre & Hpost).
  exists p. unfold log_open. destruct (Z.ltb_spec 1 maxfiles); [| lia].
  rewrite malloc_some by lia. rewrite Hp.
  set (w1 := with_heap (heap_avail w - (strlen filename + 8)) w).
  set (pre := str_take p filename ++ "-") in *.
  set (post := "." ++ str_plus filename (p + 3)) in *.
  assert (Hroom : 2 * (strlen (slot_pattern pre post) + 8) ≤ heap_avail w1)
    by (rewrite <- Hpat, Hlen; subst w1; simpl; lia).
  assert (Hint' : 2 * (strlen (slot_pattern pre post) + 8) ≤ INT_MAX)
    by (rewrite <- Hpat, Hlen; lia).
  destruct (rotate_logs_run pre post maxfiles w1 Hpre Hpost Hlim Hint' Hroom)
    as (w2 & Hrun & Hsame & _ & Hshift & _).
  assert (Hmov1 : ∀ i, 0 ≤ i < maxfiles →
            movable w1 (slot_name pre post i) (slot_name pre post (i + 1)) = true).
  { intros i Hi. exact (Hmov i Hp Hi). }
  specialize (Hshift Hmov1).
  rewrite Z.max_r in Hshift by lia.
  rewrite Hpat, Hrun. cbn [fmap option_fmap option_map mbind option_bind snd].
  destruct Hsame as (Hl & Hs & Ht & Ho & Hf & Hh & Hc & _).
  destruct Hshift as (S0 & Smid & Stop & Sout & _).
  unfold reopen, freopen_append.
  cbn [openable free with_heap fs]. rewrite Ho. subst w1. cbn [openable with_heap].
  rewrite Hopen.
  assert (Hfree0 : fs w2 !! filename = None).
  { rewrite <- Hzero. unfold numbered. fold pre post. apply S0. lia. }
  rewrite Hfree0.
  eexists. split; [reflexivity |]. split; [exact Hzero |]. split; [reflexivity |].
  cbn [stderr fs level terminal heap_avail with_stderr with_fs with_heap record].
  split; [reflexivity |]. split; [apply lookup_insert_eq |].
  split; [| unfold free; cbn [level terminal heap_avail with_heap];
            rewrite Hl, Ht, Hh; cbn [level terminal heap_avail with_heap];
            repeat split; lia].
  intros k c Hk Hc'.
  assert (Hne : filename ≠ numbered filename p (k + 1)).
  { rewrite <- Hzero at 1. intros E. apply slot_name_inj in E. lia. }
  rewrite lookup_insert_ne by exact Hne.
  cbn [fs with_heap] in Smid, Stop.
  unfold numbered in Hc' |- *. fold pre post in Hc' |- *.
  destruct (Z.eq_dec k (maxfiles - 1)) as [-> | Hk'].
  - replace (maxfiles - 1 + 1) with maxfiles by lia.
    rewrite (Stop ltac:(lia)). now rewrite Hc'.
  - rewrite (Smid (k + 1)) by lia. now replace (k + 1 - 1) with k by lia.
Qed.

Lemma log_open_rotates_then_attaches_witness :
  ∃ p w', strstr "log-0.txt" "-0." = Some p
    ∧ numbered "log-0.txt" p 0 = "log-0.txt"
    ∧ log_open "log-0.txt" 3 third_start = Some (0, w')
    ∧ stderr w' = Attached (File "log-0.txt")
    ∧ fs w' !! "log-0.txt" = Some ""
    ∧ (∀ k c, 0 ≤ k ≤ 3 - 1 →
              fs third_start !! numbered "log-0.txt" p k = Some c →
              fs w' !! numbered "log-0.txt" p (k + 1) = Some c)
    ∧ level w' = level third_start ∧ terminal w' = terminal third_start
    ∧ heap_avail w' = heap_avail third_start.
Proof.
  apply (log_open_rotates_then_attaches "log-0.txt" 3 third_start).
  - split; [lia | reflexivity].
  - exists "log", "txt". reflexivity.
  - reflexivity.
  - vm_compute. discriminate.
  - vm_compute. discriminate.
  - reflexivity.
  - intros p i Hp Hi. reflexivity.
Defined.

(** ** A log file that cannot be opened *)

(** When the open fails, [log_open] ends in [reopen] with the stream closed
    by [freopen] and the value of [warning]. *)
Lemma reopen_failure_closes (filename : string) (w : world) :
  openable w filename = false →
  fst (reopen filename w) = -1
  ∧ stderr (snd (reopen filename w)) = Closed
  ∧ terminal (snd (reopen filename w)) = terminal w
  ∧ fs (snd (reopen filename w)) = fs w.
Proof.
  intros Hno. unfold reopen, freopen_append. rewrite Hno.
  set (w1 := with_stderr Closed (record (EvFreopen filename) w)).
  destruct (warning_frame 54 "Cannot open log file" w1) as (Hr & Hs & _).
  split; [exact Hr |]. split; [rewrite Hs; reflexivity |].
  unfold warning, log_warning. destruct (LOG_WARNINGS <=? level w1); cbn [snd].
  - destruct (emit_lost "WARNING" this_file 54 "Cannot open log file" w1
                (or_introl eq_refl)) as (Ht & Hd).
    rewrite Ht, Hd. split; reflexivity.
  - split; reflexivity.
Qed.

(** Whatever the pattern, a run of the rotation loop leaves the threshold,
    the stream, the terminal and the rest of the process as they were. *)
Lemma rotate_loop_frame (pattern : string) (maxlen : Z) (n : nat) (w w' : world) :
  rotate_loop pattern maxlen n w = Some w' → same_process w w'.
Proof.
  revert w. induction n as [|m IH]; intros w H.
  - injection H as <-. apply same_process_refl.
  - cbn [rotate_loop] in H.
    destruct (sprintf maxlen pattern (Z.of_nat m)) as [f1|]; [| discriminate].
    destruct (sprintf maxlen pattern (Z.of_nat m + 1)) as [f2|]; [| discriminate].
    cbn [mbind option_bind] in H.
    exact (same_process_trans _ _ _ (proj1 (rename_frame f1 f2 w)) (IH _ H)).
Qed.

Lemma rotate_logs_frame (pattern : string) (maxfiles r : Z) (w w' : world) :
  rotate_logs pattern maxfiles w = Some (r, w') → same_process w w'.
Proof.
  unfold rotate_logs. destruct (in_int _); [| discriminate].
  destruct (malloc _ w) as [w1|] eqn:Hm.
  - destruct (rotate_loop _ _ _ w1) as [w2|] eqn:Hl; [| discriminate].
    cbn [mbind option_bind]. intros H. injection H as _ <-.
    apply rotate_loop_frame in Hl.
    unfold malloc in Hm. destruct (_ && _); [| discriminate]. injection Hm as <-.
    destruct Hl as (H1 & H2 & H3 & H4 & H5 & H6 & H7 & H8).
    unfold same_process, free. cbn in *. repeat split; try assumption. lia.
  - intros H. injection H as _ <-. apply same_process_refl.
Qed.

(** Every run of [log_open] that reaches the [freopen] on a path that
    cannot be opened returns -1 with the stream closed, whatever it was
    attached to before. *)
Lemma log_open_failure_closes (filename : string) (maxfiles r : Z) (w w' : world) :
  openable w filename = false →
  (1 < maxfiles → strlen filename + 8 ≤ heap_avail w) →
  log_open filename maxfiles w = Some (r, w') →
  r = -1 ∧ stderr w' = Closed.
Proof.
  intros Hno Hheap. unfold log_open.
  assert (Hend : ∀ v, openable v = openable w →
            Some (reopen filename v) = Some (r, w') → r = -1 ∧ stderr w' = Closed).
  { intros v Hv H. injection H as H.
    destruct (reopen_failure_closes filename v) as (Hr & Hs & _).
    { now rewrite Hv. }
    rewrite H in Hr, Hs. split; assumption. }
  destruct (Z.ltb_spec 1 maxfiles) as [Hmax | Hmax]; [| apply Hend; reflexivity].
  assert (Hlen0 : 0 ≤ strlen filename) by (unfold strlen; lia).
  rewrite malloc_some by (specialize (Hheap Hmax); lia).
  destruct (strstr filename "-0.") as [p|].
  - destruct (rotate_logs _ maxfiles _) as [[r2 w2]|] eqn:Hrot; [| discriminate].
    cbn [fmap option_fmap option_map mbind option_bind snd].
    apply Hend. apply rotate_logs_frame in Hrot as (_ & _ & _ & Ho & _).
    unfold free. cbn [openable with_heap] in *. exact Ho.
  - cbn [mbind option_bind]. apply Hend. reflexivity.
Qed.

(** C8, on the code. Opening a log file that cannot be opened returns -1,
    but the stream that was attached before the call (here the terminal) is
    closed by [freopen]: the warning of [log_open] itself and an error
    logged afterwards reach no sink, whereas the same error logged before
    the call reaches the terminal. When the name carries the marker, the
    rotation has been done by then as well. *)
Theorem failed_open_detaches_previous_stream :
  (∃ w', log_open "/var/log/modem/log-0.txt" 1 (sealed_world ∅) = Some (-1, w')
     ∧ stderr (sealed_world ∅) = Attached Terminal
     ∧ stderr w' = Closed
     ∧ writes (trace w')
       = ["1700000000250|WARNING|logging.c:54|"; "Cannot open log file"; newline]
     ∧ terminal w' = ""
     ∧ terminal (snd (log_error "modem/main.c" 120 "carrier lost" w')) = ""
     ∧ fs (snd (log_error "modem/main.c" 120 "carrier lost" w')) = ∅)
  ∧ terminal (snd (log_error "modem/main.c" 120 "carrier lost" (sealed_world ∅)))
    = "1700000000250|ERROR|main.c:120|carrier lost" ++ newline
  ∧ (λ '(r, w'), (r, stderr w', fs w'))
      <$> log_open "log-0.txt" 3 (sealed_world {["log-0.txt" := "run 1"]})
    = Some (-1, Closed, {["log-1.txt" := "run 1"]}).
Proof.
  split; [| split].
  - eexists. split; [vm_compute; reflexivity |]. repeat split; vm_compute; reflexivity.
  - vm_compute. reflexivity.
  - vm_compute. reflexivity.
Qed.

(** ** bits2str *)

Lemma hex_digit_not_NUL (n : N) : Ascii.eqb (hex_digit n) NUL = false.
Proof.
  destruct n as [|p]; [reflexivity |].
  do 4 (try destruct p as [p|p|]); reflexivity.
Qed.

(** [%02x] of a byte is the digit of its high nibble, then the digit of its
    low nibble. *)
Lemma format_02x_nibbles (b : byte) :
  format_02x b
  = String (hex_digit (Byte.to_N b / 16)) (String (hex_digit (Byte.to_N b mod 16)) "").
Proof. destruct b; reflexivity. Qed.

Lemma hex_of_bytes_length (data : list byte) :
  String.length (hex_of_bytes data) = (2 * length data)%nat.
Proof. induction data as [|b data IH]; simpl; [reflexivity | rewrite IH; lia]. Qed.

Lemma cstring_hex (data : list byte) (rest : list ascii) :
  cstring (list_ascii_of_string (hex_of_bytes data) ++ NUL :: rest)%list
  = hex_of_bytes data.
Proof.
  induction data as [|b data IH]; [reflexivity |].
  cbn [hex_of_bytes list_ascii_of_string app cstring].
  rewrite !hex_digit_not_NUL. now rewrite IH.
Qed.

Lemma sprintf_at_split (pre suf : list ascii) (h l : ascii) :
  (3 ≤ length suf)%nat →
  sprintf_at (pre ++ suf)%list (length pre) (String h (String l ""))
  = Some ((pre ++ [h; l]) ++ NUL :: drop 3 suf)%list.
Proof.
  intros Hlen. unfold sprintf_at. cbn [list_ascii_of_string app length].
  rewrite length_app.
  destruct (Nat.leb_spec (length pre + 3) (length pre + length suf)); [| lia].
  rewrite take_app_length, drop_app_add'; [| reflexivity].
  now rewrite <- app_assoc.
Qed.

(** The loop from index [i] on, the cells before offset [2 * i] being
    [pre]: the next [n] bytes are written as hexadecimal text over the
    start of [suf], followed by one NUL. *)
Lemma bits2str_loop_spec (data : list byte) (n i : nat) (pre suf : list ascii) :
  (0 < n)%nat → (i + n ≤ length data)%nat →
  2 * Z.of_nat (i + n) + 1 ≤ INT_MAX →
  length pre = (2 * i)%nat → (2 * n + 1 ≤ length suf)%nat →
  bits2str_loop data n i (pre ++ suf)%list
  = Some (pre ++ list_ascii_of_string (hex_of_bytes (take n (drop i data)))
              ++ NUL :: drop (2 * n + 1) suf)%list.
Proof.
  revert i pre suf.
  induction n as [|n IH]; intros i pre suf Hn Hdata Hint Hpre Hsuf; [lia |].
  destruct (lookup_lt_is_Some_2 data i ltac:(lia)) as [b Hb].
  cbn [bits2str_loop]. rewrite in_int_true by (unfold INT_MIN; lia).
  rewrite Hb. cbn [mbind option_bind].
  rewrite format_02x_nibbles, <- Hpre, sprintf_at_split by lia.
  cbn [mbind option_bind].
  rewrite (drop_S data b i Hb). cbn [take hex_of_bytes list_ascii_of_string].
  destruct n as [|n].
  - cbn [bits2str_loop take hex_of_bytes list_ascii_of_string app].
    rewrite <- app_assoc. reflexivity.
  - rewrite (IH (S i) (pre ++ [_; _])%list (NUL :: drop 3 suf)); try lia.
    + rewrite <- app_assoc. cbn [app].
      replace (2 * S n + 1)%nat with (S (2 * S n)) by lia. cbn [drop].
      rewrite drop_drop.
      replace (3 + 2 * S n)%nat with (2 * S (S n) + 1)%nat by lia. reflexivity.
    + rewrite length_app. simpl. lia.
    + cbn [length]. rewrite length_drop. lia.
Qed.

(** Every character of the encoding is a decimal digit or a lower-case
    letter from a to f. *)
Lemma hex_of_bytes_lowercase (data : list byte) :
  Forall (λ c, In c (list_ascii_of_string "0123456789abcdef"))
         (list_ascii_of_string (hex_of_bytes data)).
Proof.
  assert (Hdigit : ∀ n, In (hex_digit n) (list_ascii_of_string "0123456789abcdef")).
  { intros [|p]; [simpl; tauto |].
    do 4 (try destruct p as [p|p|]); simpl; tauto. }
  induction data as [|b data IH]; [constructor |].
  cbn [hex_of_bytes list_ascii_of_string].
  constructor; [apply Hdigit |]. constructor; [apply Hdigit | exact IH].
Qed.

(** Where the conversion does what its name says: [bits2str] returns the
    lower-case hexadecimal text of the first [len] bytes, two characters per byte in order and nothing in between, a
    string of [2 * len] characters: when it allocates the result itself (a
    null [str], room on the heap) for every [len] from 0 on, and when it
    writes into a caller's buffer of at least [2 * len + 1] bytes for every
    [len] from 1 on. *)
Theorem bits2str_lowercase_hex (data : list byte) (len : nat) (w : world) :
  (len ≤ length data)%nat →
  2 * Z.of_nat len + 1 ≤ INT_MAX →
  (2 * Z.of_nat len + 1 ≤ heap_avail w →
   ∃ buf w', bits2str data (Z.of_nat len) None w = Some (Some buf, w')
     ∧ cstring buf = hex_of_bytes (take len data)
     ∧ String.length (cstring buf) = (2 * len)%nat)
  ∧ (∀ str : list ascii, (0 < len)%nat → (2 * len + 1 ≤ length str)%nat →
     ∃ buf, bits2str data (Z.of_nat len) (Some str) w = Some (Some buf, w)
       ∧ cstring buf = hex_of_bytes (take len data)
       ∧ String.length (cstring buf) = (2 * len)%nat
       ∧ length buf = length str).
Proof.
  intros Hlen Hint.
  assert (Hsize : ∀ l : list byte, length l = len →
            String.length (hex_of_bytes l) = (2 * len)%nat).
  { intros l <-. apply hex_of_bytes_length. }
  assert (Htake : length (take len data) = len) by (rewrite length_take; lia).
  split.
  - intros Hheap. unfold bits2str.
    rewrite in_int_true by (unfold INT_MIN; lia).
    rewrite malloc_some by lia. rewrite Nat2Z.id.
    replace (Z.to_nat (2 * Z.of_nat len + 1)) with (2 * len + 1)%nat by lia.
    destruct len as [|n].
    + cbn [bits2str_loop mbind option_bind]. do 2 eexists.
      split; [reflexivity |]. split; reflexivity.
    + pose proof (bits2str_loop_spec data (S n) 0 [] (replicate (2 * S n + 1) NUL)) as Hloop.
      cbn [app] in Hloop. change (drop 0 data) with data in Hloop.
      rewrite Hloop;
        [| lia | simpl; lia | lia | reflexivity | rewrite length_replicate; lia].
      cbn [mbind option_bind drop]. do 2 eexists. split; [reflexivity |].
      rewrite cstring_hex. split; [reflexivity | now apply Hsize].
  - intros str Hpos Hroom. unfold bits2str. rewrite Nat2Z.id.
    pose proof (bits2str_loop_spec data len 0 [] str) as Hloop.
    cbn [app] in Hloop. change (drop 0 data) with data in Hloop.
    rewrite Hloop; [| lia | simpl; lia | lia | reflexivity | lia].
    cbn [mbind option_bind drop]. eexists. split; [reflexivity |].
    rewrite cstring_hex. split; [reflexivity |]. split; [now apply Hsize |].
    rewrite length_app. cbn [length]. rewrite length_drop.
    assert (Hl : length (list_ascii_of_string (hex_of_bytes (take len data)))
                 = (2 * len)%nat).
    { clear -Htake Hsize. rewrite <- (Hsize _ Htake).
      generalize (hex_of_bytes (take len data)). intros s.
      induction s as [|c s IH]; simpl; [reflexivity | now rewrite IH]. }
    rewrite Hl. lia.
Qed.

Lemma bits2str_lowercase_hex_witness :
  ∃ buf w', bits2str [x00; xff; x1a] 3 None (boot_world ∅) = Some (Some buf, w')
    ∧ cstring buf = "00ff1a"
    ∧ String.length (cstring buf) = 6%nat.
Proof.
  apply (proj1 (bits2str_lowercase_hex [x00; xff; x1a] 3 (boot_world ∅)
                  ltac:(simpl; lia) ltac:(vm_compute; discriminate))).
  vm_compute. discriminate.
Defined.

(** The example of the specification. *)
Lemma bits2str_example :
  match bits2str [x00; xff; x1a] 3 None (boot_world ∅) with
  | Some (Some buf, _) => Some (cstring buf)
  | _ => None
  end = Some "00ff1a"
  ∧ hex_of_bytes [x00; xff; x1a] = "00ff1a".
Proof. split; vm_compute; reflexivity. Qed.

(** With a caller's buffer and [len = 0] nothing is stored: the buffer
    comes back as it was, whatever text it held. *)
Lemma bits2str_empty_into_buffer (data : list byte) (str : list ascii) (w : world) :
  bits2str data 0 (Some str) w = Some (Some str, w).
Proof. reflexivity. Qed.

(** C9, on the code. For an empty input the string returned depends on
    where it is put. Without a buffer the result is the empty string, as the
    claim has it. Into a caller's buffer the loop does not run and no
    terminator is written, for any data and any buffer: the pointer returned
    denotes what the buffer held before, here the five characters of an
    earlier conversion, not the [2 * 0 = 0] characters the encoding of no
    byte has. From one byte on the same buffer receives the encoding. *)
Theorem bits2str_empty_input_keeps_stale_text :
  (∀ (data : list byte) (str : list ascii) (w : world),
     bits2str data 0 (Some str) w = Some (Some str, w))
  ∧ hex_of_bytes [] = ""
  ∧ match bits2str [] 0 (Some (list_ascii_of_string "00ff1" ++ [NUL])%list) (boot_world ∅) with
    | Some (Some buf, _) => Some (cstring buf, String.length (cstring buf))
    | _ => None
    end = Some ("00ff1", 5%nat)
  ∧ match bits2str [] 0 None (boot_world ∅) with
    | Some (Some buf, _) => Some (cstring buf, String.length (cstring buf))
    | _ => None
    end = Some ("", 0%nat)
  ∧ match bits2str [x1a] 1 (Some (list_ascii_of_string "00ff1" ++ [NUL])%list) (boot_world ∅) with
    | Some (Some buf, _) => Some (cstring buf, String.length (cstring buf))
    | _ => None
    end = Some ("1a", 2%nat).
Proof.
  split; [intros data str w; apply bits2str_empty_into_buffer |].
  repeat split; vm_compute; reflexivity.
Qed.

(** ** Several records *)

Lemma fprintf_stderr_env (text : string) (w : world) :
  io_fault (snd (fprintf_stderr text w)) = io_fault w
  ∧ clock (snd (fprintf_stderr text w)) = clock w
  ∧ heap_avail (snd (fprintf_stderr text w)) = heap_avail w
  ∧ openable (snd (fprintf_stderr text w)) = openable w
  ∧ level (snd (fprintf_stderr text w)) = level w
  ∧ stderr (snd (fprintf_stderr text w)) = stderr w.
Proof.
  unfold fprintf_stderr.
  destruct (stderr w) as [|[|p]] eqn:Hs, (io_fault w) eqn:Hf; simpl;
    repeat split; assumption.
Qed.

Lemma fflush_stderr_env (w : world) :
  io_fault (snd (fflush_stderr w)) = io_fault w
  ∧ clock (snd (fflush_stderr w)) = clock w
  ∧ heap_avail (snd (fflush_stderr w)) = heap_avail w
  ∧ openable (snd (fflush_stderr w)) = openable w
  ∧ level (snd (fflush_stderr w)) = level w
  ∧ stderr (snd (fflush_stderr w)) = stderr w.
Proof.
  unfold fflush_stderr.
  destruct (stderr w) as [|[|p]] eqn:Hs, (io_fault w) eqn:Hf; simpl;
    repeat split; assumption.
Qed.

(** The emitter block touches nothing of the process but the sink and the
    trace. *)
Lemma emit_env (tag module : string) (line : Z) (msg : string) (w : world) :
  io_fault (emit tag module line msg w) = io_fault w
  ∧ clock (emit tag module line msg w) = clock w
  ∧ heap_avail (emit tag module line msg w) = heap_avail w
  ∧ openable (emit tag module line msg w) = openable w
  ∧ level (emit tag module line msg w) = level w
  ∧ stderr (emit tag module line msg w) = stderr w.
Proof.
  unfold emit.
  set (w1 := pthread_mutex_lock w).
  set (t1 := (dec (current_time_ms w1) ++ _)%string).
  destruct (fprintf_stderr_env t1 w1) as (A1 & A2 & A3 & A4 & A5 & A6).
  set (w2 := snd (fprintf_stderr t1 w1)) in *.
  destruct (fprintf_stderr_env msg w2) as (B1 & B2 & B3 & B4 & B5 & B6).
  set (w3 := snd (fprintf_stderr msg w2)) in *.
  destruct (fprintf_stderr_env newline w3) as (C1 & C2 & C3 & C4 & C5 & C6).
  set (w4 := snd (fprintf_stderr newline w3)) in *.
  destruct (fflush_stderr_env w4) as (D1 & D2 & D3 & D4 & D5 & D6).
  set (w5 := snd (fflush_stderr w4)) in *.
  unfold pthread_mutex_unlock. cbn [record io_fault clock heap_avail openable level stderr].
  rewrite D1, D2, D3, D4, D5, D6, C1, C2, C3, C4, C5, C6, B1, B2, B3, B4, B5, B6,
    A1, A2, A3, A4, A5, A6.
  repeat split; reflexivity.
Qed.

Lemma emit_entry_eq (e : entry) (w : world) :
  emit_entry e w
  = if admitted (level w) e
    then emit (tag_of (e_sev e)) (e_module e) (e_line e) (e_msg e) w
    else w.
Proof. unfold emit_entry, admitted. apply emitter_call_world. Qed.

Lemma emit_entry_env (e : entry) (w : world) :
  io_fault (emit_entry e w) = io_fault w
  ∧ clock (emit_entry e w) = clock w
  ∧ heap_avail (emit_entry e w) = heap_avail w
  ∧ openable (emit_entry e w) = openable w
  ∧ level (emit_entry e w) = level w
  ∧ stderr (emit_entry e w) = stderr w.
Proof.
  rewrite emit_entry_eq. destruct (admitted (level w) e).
  - apply emit_env.
  - repeat split; reflexivity.
Qed.

Lemma entry_line_clock (w w' : world) (e : entry) :
  clock w' = clock w → entry_line w' e = entry_line w e.
Proof.
  intros H. unfold entry_line, log_line, header, current_time_ms, gettimeofday.
  now rewrite H.
Qed.

Lemma append_empty_r (s : string) : s ++ "" = s.
Proof. induction s as [|c s IH]; [reflexivity | rewrite append_cons; now rewrite IH]. Qed.

(** What one entry adds to the sink of a healthy stream. *)
Lemma emit_entry_sink (k : sink) (e : entry) (w : world) :
  stderr w = Attached k → io_fault w = false →
  let text := if admitted (level w) e then entry_line w e else "" in
  terminal (emit_entry e w) = terminal (deliver k text w)
  ∧ fs (emit_entry e w) = fs (deliver k text w).
Proof.
  intros Hs Hf. cbv zeta. rewrite emit_entry_eq.
  destruct (admitted (level w) e).
  - apply (emit_delivers k _ _ _ _ w Hs Hf).
  - destruct k as [|p]; cbn [deliver terminal fs with_terminal with_fs].
    + now rewrite append_empty_r.
    + split; [reflexivity |]. symmetry.
      rewrite <- (alter_id (λ c, c ++ "")%string (fs w) p) at 2; [reflexivity |].
      intros c _. apply append_empty_r.
Qed.

(** Records handed to the emitters one after the other reach a healthy sink
    as the lines of those the threshold admits, in the order of the calls
    and with nothing in between; the suppressed ones leave no mark, and the
    stream and the threshold stay as they were. *)
Theorem records_reach_sink_in_order (es : list entry) (k : sink) (w : world) :
  stderr w = Attached k → io_fault w = false →
  let text := flat (entry_line w <$> List.filter (admitted (level w)) es) in
  match k with
  | Terminal =>
    terminal (emit_all es w) = terminal w ++ text ∧ fs (emit_all es w) = fs w
  | File p =>
    fs (emit_all es w) = alter (λ c, c ++ text) p (fs w)
    ∧ terminal (emit_all es w) = terminal w
  end
  ∧ stderr (emit_all es w) = Attached k
  ∧ level (emit_all es w) = level w.
Proof.
  revert w. induction es as [|e es IH]; intros w Hs Hf; cbv zeta.
  - cbn [emit_all foldl List.filter fmap list_fmap flat foldr].
    split; [| split; [exact Hs | reflexivity]].
    destruct k as [|p].
    + now rewrite append_empty_r.
    + split; [| reflexivity]. symmetry. apply alter_id.
      intros c _. apply append_empty_r.
  - change (emit_all (e :: es) w) with (emit_all es (emit_entry e w)).
    destruct (emit_entry_env e w) as (Ef & Ec & _ & _ & El & Es).
    destruct (emit_entry_sink k e w Hs Hf) as (Et & Ed).
    specialize (IH (emit_entry e w)). cbv zeta in IH.
    rewrite Es, Ef, El in IH. specialize (IH Hs Hf).
    rewrite (list_fmap_ext (entry_line (emit_entry e w)) (entry_line w)) in IH
      by (intros; now apply entry_line_clock).
    destruct IH as (IHk & IHs & IHl).
    split; [| split; [exact IHs | now rewrite IHl]].
    cbn [List.filter].
    set (rest := flat (entry_line w <$> List.filter (admitted (level w)) es)) in *.
    destruct k as [|p]; cbn [deliver terminal fs with_terminal with_fs] in Et, Ed.
    + destruct IHk as (IHt & IHd). rewrite IHt, IHd, Et, Ed.
      split; [| reflexivity].
      destruct (admitted (level w) e); cbn [fmap list_fmap flat foldr]; fold rest.
      * now rewrite append_assoc.
      * now rewrite append_empty_r.
    + destruct IHk as (IHd & IHt). rewrite IHd, IHt, Et, Ed.
      split; [| reflexivity].
      rewrite alter_alter_eq. apply alter_ext. intros c _. simpl.
      destruct (admitted (level w) e); cbn [fmap list_fmap flat foldr]; fold rest.
      * now rewrite append_assoc.
      * now rewrite append_empty_r.
Qed.

Lemma records_reach_sink_in_order_witness :
  (terminal (emit_all burst (boot_world ∅))
   = terminal (boot_world ∅)
     ++ flat (entry_line (boot_world ∅)
                <$> List.filter (admitted (level (boot_world ∅))) burst)
   ∧ fs (emit_all burst (boot_world ∅)) = fs (boot_world ∅))
  ∧ stderr (emit_all burst (boot_world ∅)) = Attached Terminal
  ∧ level (emit_all burst (boot_world ∅)) = level (boot_world ∅).
Proof.
  exact (records_reach_sink_in_order burst Terminal (boot_world ∅) eq_refl eq_refl).
Defined.

(** Above the threshold [LOG_NONE], [log_die] puts the line
    timestamp|ABORT|module:line|message on a healthy sink before the process
    exits with status 1. *)
Theorem log_die_writes_abort_line
    (module : string) (line : Z) (msg : string) (w : world) (k : sink) :
  LOG_NONE < level w → stderr w = Attached k → io_fault w = false →
  ∃ w', log_die module line msg w = Exits 1 w'
    ∧ match k with
      | Terminal =>
        terminal w' = terminal w ++ dec (current_time_ms w) ++ "|ABORT|"
                      ++ basename module ++ ":" ++ dec line ++ "|" ++ msg ++ newline
        ∧ fs w' = fs w
      | File p =>
        fs w' = alter (λ c, c ++ dec (current_time_ms w) ++ "|ABORT|"
                            ++ basename module ++ ":" ++ dec line ++ "|" ++ msg
                            ++ newline) p (fs w)
        ∧ terminal w' = terminal w
      end.
Proof.
  intros Hl Hs Hf. unfold log_die.
  destruct (Z.ltb_spec LOG_NONE (level w)) as [_ | Hge]; [| lia].
  eexists. split; [reflexivity |].
  destruct (emit_delivers k "ABORT" module line msg w Hs Hf) as (Ht & Hd).
  rewrite Ht, Hd. unfold log_line, header.
  destruct k as [|p]; cbn [deliver terminal fs with_terminal with_fs].
  - split; [| reflexivity]. rewrite !append_assoc. reflexivity.
  - split; [| reflexivity]. apply alter_ext. intros c _.
    rewrite !append_assoc. reflexivity.
Qed.

Lemma log_die_writes_abort_line_witness :
  ∃ w', log_die "src/modem/rx.c" 7 "no carrier" (boot_world ∅) = Exits 1 w'
    ∧ terminal w' = terminal (boot_world ∅) ++ dec (current_time_ms (boot_world ∅))
                    ++ "|ABORT|" ++ basename "src/modem/rx.c" ++ ":" ++ dec 7 ++ "|"
                    ++ "no carrier" ++ newline
    ∧ fs w' = fs (boot_world ∅).
Proof.
  apply (log_die_writes_abort_line "src/modem/rx.c" 7 "no carrier" (boot_world ∅) Terminal);
    reflexivity.
Defined.

(** ** What a call leaves alone *)

Lemma log_warning_env (module : string) (line : Z) (msg : string) (w : world) :
  level (snd (log_warning module line msg w)) = level w
  ∧ heap_avail (snd (log_warning module line msg w)) = heap_avail w
  ∧ stderr (snd (log_warning module line msg w)) = stderr w.
Proof.
  unfold log_warning. cbn [snd].
  destruct (LOG_WARNINGS <=? level w); [| repeat split; reflexivity].
  destruct (emit_env "WARNING" module line msg w) as (_ & _ & Hh & _ & Hl & Hs).
  repeat split; assumption.
Qed.

Lemma reopen_env (filename : string) (w : world) :
  level (snd (reopen filename w)) = level w
  ∧ heap_avail (snd (reopen filename w)) = heap_avail w.
Proof.
  unfold reopen, freopen_append.
  destruct (openable w filename).
  - split; reflexivity.
  - unfold warning.
    destruct (log_warning_env this_file 54 "Cannot open log file"
                (with_stderr Closed (record (EvFreopen filename) w))) as (Hl & Hh & _).
    split; assumption.
Qed.

(** [log_open] gives back what it allocates, and leaves the threshold. *)
Lemma log_open_env (filename : string) (maxfiles r : Z) (w w' : world) :
  log_open filename maxfiles w = Some (r, w') →
  level w' = level w ∧ heap_avail w' = heap_avail w.
Proof.
  unfold log_open. destruct (1 <? maxfiles).
  - unfold malloc.
    destruct ((0 <=? strlen filename + 8) && (strlen filename + 8 <=? heap_avail w)).
    + set (w1 := with_heap _ w).
      assert (H1 : level w1 = level w
                   ∧ heap_avail w1 = heap_avail w - (strlen filename + 8))
        by (split; reflexivity).
      destruct H1 as (Hl1 & Hh1).
      destruct (strstr filename "-0.") as [p|].
      * destruct (rotate_logs (make_pattern filename p) maxfiles w1) as [[r2 w2]|] eqn:Hrot;
          [| discriminate].
        cbn [fmap option_fmap option_map mbind option_bind snd].
        intros [= H]. apply (f_equal snd) in H. cbn [snd] in H. subst w'.
        destruct (rotate_logs_frame _ _ _ _ _ Hrot) as (Hl2 & _ & _ & _ & _ & Hh2 & _).
        destruct (reopen_env filename (free (strlen filename + 8) w2)) as (Hl & Hh).
        rewrite Hl, Hh. unfold free. cbn [level heap_avail with_heap].
        rewrite Hl2, Hh2, Hl1, Hh1. split; [reflexivity | lia].
      * cbn [mbind option_bind]. intros [= H].
        apply (f_equal snd) in H. cbn [snd] in H. subst w'.
        destruct (reopen_env filename (free (strlen filename + 8) w1)) as (Hl & Hh).
        rewrite Hl, Hh. unfold free. cbn [level heap_avail with_heap].
        rewrite Hl1, Hh1. split; [reflexivity | lia].
    + intros [= _ <-].
      destruct (log_warning_env this_file 44 "Out of memory" w) as (Hl & Hh & _).
      exact (conj Hl Hh).
  - intros [= H]. apply (f_equal snd) in H. cbn [snd] in H. subst w'.
    apply reopen_env.
Qed.

Lemma fprintf_file_env (path text : string) (w : world) :
  level (snd (fprintf_file path text w)) = level w
  ∧ heap_avail (snd (fprintf_file path text w)) = heap_avail w
  ∧ stderr (snd (fprintf_file path text w)) = stderr w
  ∧ io_fault (snd (fprintf_file path text w)) = io_fault w
  ∧ terminal (snd (fprintf_file path text w)) = terminal w
  ∧ trace (snd (fprintf_file path text w)) = trace w.
Proof. unfold fprintf_file. destruct (io_fault w) eqn:H; simpl; auto 10. Qed.

Lemma dump_passband_loop_env (fp : string) (signal : list Z) (n i : nat) (w w' : world) :
  dump_passband_loop fp signal n i w = Some w' →
  level w' = level w ∧ heap_avail w' = heap_avail w ∧ stderr w' = stderr w
  ∧ io_fault w' = io_fault w ∧ terminal w' = terminal w ∧ trace w' = trace w.
Proof.
  revert i w. induction n as [|n IH]; intros i w; cbn [dump_passband_loop].
  - intros [= <-]. auto 10.
  - destruct (signal !! i) as [s|]; [| discriminate].
    cbn [mbind option_bind]. intros H. apply IH in H.
    destruct (fprintf_file_env fp (dec s ++ newline) w) as (A1 & A2 & A3 & A4 & A5 & A6).
    destruct H as (B1 & B2 & B3 & B4 & B5 & B6).
    rewrite B1, B2, B3, B4, B5, B6. auto 10.
Qed.

Lemma dump_passband_signal_env (filename : string) (signal : list Z) (len r : Z)
    (w w' : world) :
  dump_passband_signal filename signal len w = Some (r, w') →
  level w' = level w ∧ heap_avail w' = heap_avail w ∧ stderr w' = stderr w
  ∧ io_fault w' = io_fault w ∧ terminal w' = terminal w ∧ trace w' = trace w.
Proof.
  unfold dump_passband_signal, fopen_wt.
  destruct (openable w filename).
  - destruct (dump_passband_loop _ _ _ _ _) as [w2|] eqn:Hloop; [| discriminate].
    cbn [mbind option_bind fclose_file snd]. intros [= <- <-].
    apply dump_passband_loop_env in Hloop. exact Hloop.
  - intros [= <- <-]. auto 10.
Qed.

Lemma bits2str_env (data : list byte) (len : Z) (r : option (list ascii)) (w w' : world) :
  bits2str data len None w = Some (r, w') →
  level w' = level w
  ∧ (heap_avail w' = heap_avail w ∨ heap_avail w' = heap_avail w - (2 * len + 1))
  ∧ heap_avail w' ≤ heap_avail w.
Proof.
  unfold bits2str. destruct (in_int (2 * len + 1)); [| discriminate].
  unfold malloc.
  destruct (Z.leb_spec 0 (2 * len + 1)) as [H0 | H0]; cbn [andb].
  - destruct (2 * len + 1 <=? heap_avail w).
    + destruct (bits2str_loop _ _ _ _) as [buf|]; [| discriminate].
      cbn [mbind option_bind]. intros [= <- <-]. cbn [level heap_avail with_heap].
      split; [reflexivity |]. split; [right; reflexivity | lia].
    + intros [= <- <-]. split; [reflexivity |]. split; [left; reflexivity | lia].
  - intros [= <- <-]. split; [reflexivity |]. split; [left; reflexivity | lia].
Qed.

Lemma step_env (c : call) (w w' : world) :
  step c w = Some w' →
  level w' = threshold_after [c] (level w)
  ∧ heap_avail w' ≤ heap_avail w
  ∧ (is_bits2str_call c = false → heap_avail w' = heap_avail w).
Proof.
  destruct c as [f m | | lvl | e | data len | f sig len];
    cbn [step threshold_after foldl is_bits2str_call].
  - destruct (log_open f m w) as [[r w1]|] eqn:H; [| discriminate].
    cbn [fmap option_fmap option_map snd]. intros [= <-].
    apply log_open_env in H. destruct H as (-> & ->). split; [reflexivity |].
    split; [lia | reflexivity].
  - intros [= <-]. unfold log_close, fclose_stderr.
    destruct (stderr w), (io_fault w); cbn; (split; [reflexivity |]);
      (split; [lia | reflexivity]).
  - intros [= <-]. unfold log_level.
    destruct ((LOG_NONE <=? lvl) && (lvl <=? LOG_ALL)); cbn;
      (split; [reflexivity |]); (split; [lia | reflexivity]).
  - intros [= <-]. destruct (emit_entry_env e w) as (_ & _ & Hh & _ & Hl & _).
    rewrite Hh, Hl. split; [reflexivity |]. split; [lia | reflexivity].
  - destruct (bits2str data len None w) as [[r w1]|] eqn:H; [| discriminate].
    cbn [fmap option_fmap option_map snd]. intros [= <-].
    apply bits2str_env in H. destruct H as (-> & _ & Hle).
    split; [reflexivity |]. split; [exact Hle | discriminate].
  - destruct (dump_passband_signal f sig len w) as [[r w1]|] eqn:H; [| discriminate].
    cbn [fmap option_fmap option_map snd]. intros [= <-].
    apply dump_passband_signal_env in H. destruct H as (-> & -> & _).
    split; [reflexivity |]. split; [lia | reflexivity].
Qed.

Lemma threshold_after_range (cs : list call) (l : Z) :
  LOG_NONE ≤ l ≤ LOG_ALL → LOG_NONE ≤ threshold_after cs l ≤ LOG_ALL.
Proof.
  revert l. induction cs as [|c cs IH]; intros l Hl; [exact Hl |].
  change (threshold_after (c :: cs) l) with (threshold_after cs (threshold_after [c] l)).
  apply IH. destruct c; try exact Hl. cbn [threshold_after foldl].
  destruct (Z.leb_spec LOG_NONE lvl), (Z.leb_spec lvl LOG_ALL); cbn [andb]; lia.
Qed.

(** Over any sequence of calls of the interface that is defined, the
    threshold is the argument of the last [log_level] call that was in
    range, or the initial one: no other function changes it, and a threshold
    within [LOG_NONE .. LOG_ALL] stays within it. *)
Theorem threshold_follows_log_level (cs : list call) (w w' : world) :
  run cs w = Some w' →
  level w' = threshold_after cs (level w)
  ∧ (forallb (λ c, negb (is_level_call c)) cs = true → level w' = level w)
  ∧ (LOG_NONE ≤ level w ≤ LOG_ALL → LOG_NONE ≤ level w' ≤ LOG_ALL).
Proof.
  intros Hrun.
  assert (H : level w' = threshold_after cs (level w)).
  { revert w Hrun. induction cs as [|c cs IH]; intros w; cbn [run].
    - now intros [= <-].
    - destruct (step c w) as [w1|] eqn:Hstep; [| discriminate].
      cbn [mbind option_bind]. intros Hrun. rewrite (IH _ Hrun).
      apply step_env in Hstep. destruct Hstep as (-> & _). reflexivity. }
  split; [exact H |]. split.
  - intros Hno. rewrite H. clear H Hrun. generalize (level w). 
    induction cs as [|c cs IH]; intros l; [reflexivity |].
    cbn [forallb] in Hno. apply andb_prop in Hno. destruct Hno as (Hc & Hcs).
    change (threshold_after (c :: cs) l) with (threshold_after cs (threshold_after [c] l)).
    rewrite (IH Hcs). destruct c; try reflexivity. discriminate.
  - intros Hl. rewrite H. now apply threshold_after_range.
Qed.

Lemma threshold_follows_log_level_witness :
  level (default (boot_world ∅) (run session (boot_world ∅)))
  = threshold_after session (level (boot_world ∅))
  ∧ (forallb (λ c, negb (is_level_call c)) session = true →
     level (default (boot_world ∅) (run session (boot_world ∅))) = level (boot_world ∅))
  ∧ (LOG_NONE ≤ level (boot_world ∅) ≤ LOG_ALL →
     LOG_NONE ≤ level (default (boot_world ∅) (run session (boot_world ∅))) ≤ LOG_ALL).
Proof.
  apply (threshold_follows_log_level session (boot_world ∅)).
  vm_compute. reflexivity.
Defined.

(** No function of the interface keeps memory except [bits2str], whose
    result belongs to the caller: over a defined sequence of calls the heap
    never grows, and without a [bits2str] call it ends as it began. *)
Theorem interface_keeps_no_memory (cs : list call) (w w' : world) :
  run cs w = Some w' →
  heap_avail w' ≤ heap_avail w
  ∧ (forallb (λ c, negb (is_bits2str_call c)) cs = true → heap_avail w' = heap_avail w).
Proof.
  revert w. induction cs as [|c cs IH]; intros w; cbn [run].
  - intros [= <-]. split; [lia | reflexivity].
  - destruct (step c w) as [w1|] eqn:Hstep; [| discriminate].
    cbn [mbind option_bind]. intros Hrun.
    destruct (IH _ Hrun) as (Hle & Heq).
    apply step_env in Hstep. destruct Hstep as (_ & Hle1 & Heq1).
    split; [lia |]. cbn [forallb]. intros Hno. apply andb_prop in Hno.
    destruct Hno as (Hc & Hcs). rewrite (Heq Hcs). apply Heq1.
    now destruct (is_bits2str_call c).
Qed.

Lemma interface_keeps_no_memory_witness :
  heap_avail (default (boot_world ∅) (run quiet_session (boot_world ∅)))
  ≤ heap_avail (boot_world ∅)
  ∧ (forallb (λ c, negb (is_bits2str_call c)) quiet_session = true →
     heap_avail (default (boot_world ∅) (run quiet_session (boot_world ∅)))
     = heap_avail (boot_world ∅)).
Proof.
  apply (interface_keeps_no_memory quiet_session (boot_world ∅)).
  vm_compute. reflexivity.
Defined.

(** ** Opening without rotation *)

(** A successful [freopen]: the stream is attached to the file, which keeps
    its content or is created empty, and nothing else moves. *)
Lemma reopen_attaches (filename : string) (v : world) :
  openable v filename = true →
  fst (reopen filename v) = 0
  ∧ stderr (snd (reopen filename v)) = Attached (File filename)
  ∧ fs (snd (reopen filename v)) = <[filename := default "" (fs v !! filename)]> (fs v)
  ∧ terminal (snd (reopen filename v)) = terminal v
  ∧ trace (snd (reopen filename v)) = (trace v ++ [EvFreopen filename])%list
  ∧ level (snd (reopen filename v)) = level v
  ∧ io_fault (snd (reopen filename v)) = io_fault v
  ∧ clock (snd (reopen filename v)) = clock v.
Proof.
  intros Ho. unfold reopen, freopen_append. rewrite Ho.
  cbn [fst snd stderr fs terminal trace level io_fault clock with_stderr with_fs record].
  repeat split; try reflexivity.
  destruct (fs v !! filename) as [c|] eqn:Hc; cbn [default].
  - symmetry. now apply insert_id.
  - reflexivity.
Qed.

(** Without rotation (no marker in the name, or a retention count of 1 or
    less) [log_open] on an openable path returns 0 and attaches [stderr] to
    the file in append mode: an existing file keeps its content, an absent
    one is created empty, and the next admitted record follows the old
    content. *)
Theorem log_open_appends_without_marker
    (filename : string) (maxfiles : Z) (w : world) :
  ¬ (1 < maxfiles ∧ has_marker filename) →
  (1 < maxfiles → strlen filename + 8 ≤ heap_avail w) →
  openable w filename = true → io_fault w = false →
  ∃ w', log_open filename maxfiles w = Some (0, w')
    ∧ stderr w' = Attached (File filename)
    ∧ fs w' = <[filename := default "" (fs w !! filename)]> (fs w)
    ∧ terminal w' = terminal w
    ∧ ∀ e, admitted (level w) e = true →
        fs (emit_entry e w') !! filename
        = Some (default "" (fs w !! filename) ++ entry_line w e).
Proof.
  intros Hno Hheap Ho Hf.
  assert (Hlen0 : 0 ≤ strlen filename) by (unfold strlen; lia).
  assert (Hgen : ∀ v : world,
            openable v = openable w → fs v = fs w → terminal v = terminal w →
            level v = level w → io_fault v = io_fault w → clock v = clock w →
            ∃ w', Some (reopen filename v) = Some (0, w')
              ∧ stderr w' = Attached (File filename)
              ∧ fs w' = <[filename := default "" (fs w !! filename)]> (fs w)
              ∧ terminal w' = terminal w
              ∧ ∀ e, admitted (level w) e = true →
                  fs (emit_entry e w') !! filename
                  = Some (default "" (fs w !! filename) ++ entry_line w e)).
  { intros v Hvo Hvd Hvt Hvl Hvf Hvc.
    assert (Ho' : openable v filename = true) by now rewrite Hvo.
    destruct (reopen_attaches filename v Ho')
      as (Hr & Hs & Hd & Ht & _ & Hl & Hio & Hc).
    exists (snd (reopen filename v)).
    split; [rewrite <- Hr; now rewrite <- surjective_pairing |].
    split; [exact Hs |]. rewrite Hvd in Hd. split; [exact Hd |].
    split; [now rewrite Ht |].
    intros e He.
    assert (Hio' : io_fault (snd (reopen filename v)) = false)
      by now rewrite Hio, Hvf.
    destruct (emit_entry_sink (File filename) e _ Hs Hio') as (_ & He').
    cbv zeta in He'. rewrite Hl, Hvl, He in He'. rewrite He'.
    cbn [deliver fs with_fs]. rewrite lookup_alter_eq, Hd, lookup_insert_eq.
    cbn [fmap option_fmap option_map]. f_equal. f_equal.
    apply entry_line_clock. now rewrite Hc. }
  unfold log_open. destruct (Z.ltb_spec 1 maxfiles) as [Hmax | Hmax].
  - destruct (strstr filename "-0.") as [p|] eqn:Hp.
    { exfalso. apply Hno. split; [exact Hmax |]. apply strstr_marker. eauto. }
    rewrite malloc_some by (specialize (Hheap Hmax); lia).
    cbn [mbind option_bind]. apply Hgen; reflexivity.
  - apply Hgen; reflexivity.
Qed.

Lemma log_open_appends_without_marker_witness :
  ∃ w', log_open "modem.log" 4 (boot_world {["modem.log" := "old"]}) = Some (0, w')
    ∧ stderr w' = Attached (File "modem.log")
    ∧ fs w' = <["modem.log" := default "" (fs (boot_world {["modem.log" := "old"]})
                                              !! "modem.log")]>
                (fs (boot_world {["modem.log" := "old"]}))
    ∧ terminal w' = terminal (boot_world {["modem.log" := "old"]})
    ∧ ∀ e, admitted (level (boot_world {["modem.log" := "old"]})) e = true →
        fs (emit_entry e w') !! "modem.log"
        = Some (default "" (fs (boot_world {["modem.log" := "old"]}) !! "modem.log")
                ++ entry_line (boot_world {["modem.log" := "old"]}) e).
Proof.
  apply (log_open_appends_without_marker "modem.log" 4 (boot_world {["modem.log" := "old"]})).
  - intros [_ (a & b & H)]. apply (strstr_none "modem.log" "-0." eq_refl a b H).
  - intros _. vm_compute. discriminate.
  - reflexivity.
  - reflexivity.
Defined.

(** ** Opening when memory runs out *)

(** When the copy of the file name cannot be allocated, [log_open] returns
    -1 after its "Out of memory" warning: nothing is renamed or reopened,
    and [stderr] stays where it was. *)
Theorem log_open_out_of_memory (filename : string) (maxfiles : Z) (w : world) :
  1 < maxfiles → heap_avail w < strlen filename + 8 →
  ∃ w', log_open filename maxfiles w = Some (-1, w')
    ∧ stderr w' = stderr w
    ∧ heap_avail w' = heap_avail w
    ∧ trace w' = (trace w
                  ++ if LOG_WARNINGS <=? level w
                     then line_events "WARNING" this_file 44 "Out of memory" w
                     else [])%list.
Proof.
  intros Hmax Hheap. unfold log_open.
  destruct (Z.ltb_spec 1 maxfiles); [| lia].
  unfold malloc.
  destruct (Z.leb_spec (strlen filename + 8) (heap_avail w)); [lia |].
  rewrite andb_false_r.
  exists (snd (warning 44 "Out of memory" w)).
  destruct (warning_frame 44 "Out of memory" w) as (Hr & Hs & _).
  split; [rewrite <- Hr; now rewrite <- surjective_pairing |].
  split; [exact Hs |].
  destruct (log_warning_env this_file 44 "Out of memory" w) as (_ & Hh & _).
  split; [exact Hh |].
  unfold warning, log_warning. cbn [snd].
  destruct (LOG_WARNINGS <=? level w).
  - apply emit_trace.
  - now rewrite app_nil_r.
Qed.

Lemma log_open_out_of_memory_witness :
  ∃ w', log_open "log-0.txt" 4 (tight_world 10 {["log-0.txt" := "run 1"]}) = Some (-1, w')
    ∧ stderr w' = stderr (tight_world 10 {["log-0.txt" := "run 1"]})
    ∧ heap_avail w' = heap_avail (tight_world 10 {["log-0.txt" := "run 1"]})
    ∧ trace w' = (trace (tight_world 10 {["log-0.txt" := "run 1"]})
                  ++ if LOG_WARNINGS <=? level (tight_world 10 {["log-0.txt" := "run 1"]})
                     then line_events "WARNING" this_file 44 "Out of memory"
                            (tight_world 10 {["log-0.txt" := "run 1"]})
                     else [])%list.
Proof.
  apply (log_open_out_of_memory "log-0.txt" 4 (tight_world 10 {["log-0.txt" := "run 1"]}));
    reflexivity.
Defined.

(** When the copy of the file name fits but the two name buffers of
    [rotate_logs] do not, [log_open] drops the rotation without a word: no
    rename, no warning, the log is opened in append mode on the old file
    and 0 is returned. *)
Theorem log_open_skips_rotation_without_memory
    (filename : string) (maxfiles : Z) (w : world) :
  1 < maxfiles → has_marker filename →
  2 * (strlen filename + 9) ≤ INT_MAX →
  strlen filename + 8 ≤ heap_avail w < 3 * strlen filename + 26 →
  openable w filename = true →
  ∃ w', log_open filename maxfiles w = Some (0, w')
    ∧ trace w' = (trace w ++ [EvFreopen filename])%list
    ∧ stderr w' = Attached (File filename)
    ∧ fs w' = <[filename := default "" (fs w !! filename)]> (fs w)
    ∧ heap_avail w' = heap_avail w.
Proof.
  intros Hmax Hmark Hint [Hlo Hhi] Ho.
  assert (Hlen0 : 0 ≤ strlen filename) by (unfold strlen; lia).
  apply strstr_marker in Hmark as [p Hp].
  destruct (make_pattern_slot filename p Hp) as (_ & Hlen & _).
  unfold log_open. destruct (Z.ltb_spec 1 maxfiles); [| lia].
  rewrite malloc_some by lia. rewrite Hp.
  set (w1 := with_heap (heap_avail w - (strlen filename + 8)) w).
  unfold rotate_logs. rewrite Hlen.
  rewrite in_int_true by (unfold INT_MIN; lia).
  unfold malloc.
  destruct (Z.leb_spec (2 * (strlen filename + 1 + 8)) (heap_avail w1)) as [Hfit | _].
  { subst w1. cbn [heap_avail with_heap] in Hfit. lia. }
  rewrite andb_false_r.
  cbn [fmap option_fmap option_map mbind option_bind snd].
  set (v := free (strlen filename + 8) w1).
  assert (Hv : openable v filename = true) by exact Ho.
  destruct (reopen_attaches filename v Hv) as (Hr & Hs & Hd & _ & Ht & _).
  exists (snd (reopen filename v)).
  split; [rewrite <- Hr; now rewrite <- surjective_pairing |].
  split; [exact Ht |]. split; [exact Hs |]. split; [exact Hd |].
  destruct (reopen_env filename v) as (_ & Hh). rewrite Hh.
  subst v w1. unfold free. cbn [heap_avail with_heap]. lia.
Qed.

Lemma log_open_skips_rotation_without_memory_witness :
  ∃ w', log_open "log-0.txt" 4 (tight_world 40 {["log-0.txt" := "run 1"]}) = Some (0, w')
    ∧ trace w' = (trace (tight_world 40 {["log-0.txt" := "run 1"]})
                  ++ [EvFreopen "log-0.txt"])%list
    ∧ stderr w' = Attached (File "log-0.txt")
    ∧ fs w' = <["log-0.txt" := default "" (fs (tight_world 40 {["log-0.txt" := "run 1"]})
                                              !! "log-0.txt")]>
                (fs (tight_world 40 {["log-0.txt" := "run 1"]}))
    ∧ heap_avail w' = heap_avail (tight_world 40 {["log-0.txt" := "run 1"]}).
Proof.
  apply (log_open_skips_rotation_without_memory "log-0.txt" 4
           (tight_world 40 {["log-0.txt" := "run 1"]})).
  - reflexivity.
  - exists "log", "txt". reflexivity.
  - vm_compute. discriminate.
  - split; vm_compute; [discriminate | reflexivity].
  - reflexivity.
Defined.

(** ** Opening when the renames fail *)

(** Where every rename of the rotation fails, its source missing or the move
    refused by the system (the directory of the target does not exist, say),
    [log_open] does not notice: the renames are requested as ever, no file
    moves, the log is opened in append mode on the file of the previous run,
    whose content stays, and 0 is returned. *)
Theorem log_open_tolerates_refused_renames
    (filename : string) (maxfiles : Z) (w : world) :
  1 < maxfiles < 10 ^ 9 → has_marker filename → percent_free filename = true →
  2 * (strlen filename + 9) ≤ INT_MAX →
  3 * strlen filename + 26 ≤ heap_avail w →
  openable w filename = true →
  (∀ p i, strstr filename "-0." = Some p → 0 ≤ i < maxfiles →
          fs w !! numbered filename p i = None
          ∨ movable w (numbered filename p i) (numbered filename p (i + 1)) = false) →
  ∃ p w', strstr filename "-0." = Some p
    ∧ log_open filename maxfiles w = Some (0, w')
    ∧ trace w' = (trace w
                  ++ ((λ i, EvRename (numbered filename p i) (numbered filename p (i + 1)))
                        <$> rev (seqZ 0 maxfiles))
                  ++ [EvFreopen filename])%list
    ∧ stderr w' = Attached (File filename)
    ∧ fs w' = <[filename := default "" (fs w !! filename)]> (fs w).
Proof.
  intros [Hmax Hlim] Hmark Hpf Hint Hheap Hopen Hidle.
  assert (Hlen0 : 0 ≤ strlen filename) by (unfold strlen; lia).
  apply strstr_marker in Hmark as [p Hp].
  specialize (Hidle p).
  destruct (make_pattern_slot filename p Hp) as (Hpat & Hlen & _ & Hfree).
  destruct (Hfree Hpf) as (Hpre & Hpost).
  exists p. unfold log_open. destruct (Z.ltb_spec 1 maxfiles); [| lia].
  rewrite malloc_some by lia. rewrite Hp.
  set (w1 := with_heap (heap_avail w - (strlen filename + 8)) w).
  set (pre := str_take p filename ++ "-") in *.
  set (post := "." ++ str_plus filename (p + 3)) in *.
  assert (Hroom : 2 * (strlen (slot_pattern pre post) + 8) ≤ heap_avail w1)
    by (rewrite <- Hpat, Hlen; subst w1; simpl; lia).
  assert (Hint' : 2 * (strlen (slot_pattern pre post) + 8) ≤ INT_MAX)
    by (rewrite <- Hpat, Hlen; lia).
  destruct (rotate_logs_run pre post maxfiles w1 Hpre Hpost Hlim Hint' Hroom)
    as (w2 & Hrun & Hsame & Htrace & _ & _ & Hkeep).
  assert (Hfs2 : fs w2 = fs w).
  { apply Hkeep. intros i Hi. exact (Hidle i Hp Hi). }
  rewrite Hpat, Hrun. cbn [fmap option_fmap option_map mbind option_bind snd].
  set (v := free (strlen filename + 8) w2).
  destruct Hsame as (_ & _ & _ & Ho & _).
  assert (Hv : openable v filename = true)
    by (subst v; unfold free; cbn [openable with_heap]; now rewrite Ho).
  destruct (reopen_attaches filename v Hv) as (Hr & Hs & Hd & _ & Ht & _).
  exists (snd (reopen filename v)).
  split; [reflexivity |].
  split; [rewrite <- Hr; now rewrite <- surjective_pairing |].
  split; [| split; [exact Hs |]].
  - rewrite Ht. subst v. unfold free. cbn [trace with_heap]. rewrite Htrace.
    subst w1. cbn [trace with_heap]. unfold numbered. fold pre post.
    now rewrite <- app_assoc.
  - rewrite Hd. subst v. unfold free. cbn [fs with_heap]. now rewrite Hfs2.
Qed.

Lemma log_open_tolerates_refused_renames_witness :
  ∃ p w', strstr "app-0.9/log-0.txt" "-0." = Some p
    ∧ log_open "app-0.9/log-0.txt" 2 nested_world = Some (0, w')
    ∧ trace w' = (trace nested_world
                  ++ ((λ i, EvRename (numbered "app-0.9/log-0.txt" p i)
                                     (numbered "app-0.9/log-0.txt" p (i + 1)))
                        <$> rev (seqZ 0 2))
                  ++ [EvFreopen "app-0.9/log-0.txt"])%list
    ∧ stderr w' = Attached (File "app-0.9/log-0.txt")
    ∧ fs w' = <["app-0.9/log-0.txt" := default "" (fs nested_world !! "app-0.9/log-0.txt")]>
                (fs nested_world).
Proof.
  apply (log_open_tolerates_refused_renames "app-0.9/log-0.txt" 2 nested_world).
  - split; [lia | reflexivity].
  - exists "app", "9/log-0.txt". reflexivity.
  - reflexivity.
  - vm_compute. discriminate.
  - vm_compute. discriminate.
  - reflexivity.
  - intros p i Hp Hi. vm_compute in Hp. injection Hp as <-.
    assert (Hcase : i = 0 ∨ i = 1) by lia.
    destruct Hcase as [-> | ->]; [right | left]; reflexivity.
Defined.

(** The run of that example: both renames fail, the old log is still in
    place and the next record follows its content. *)
Lemma log_open_nested_example :
  (λ '(r, w'), (r, stderr w', fs (log_info "main.c" 10 "run 2" w'), renames (trace w')))
    <$> log_open "app-0.9/log-0.txt" 2 nested_world
  = Some (0, Attached (File "app-0.9/log-0.txt"),
          {["app-0.9/log-0.txt" := "run 1" ++ "1700000000250|INFO|main.c:10|run 2" ++ newline]},
          [("app-1.9/log-0.txt", "app-2.9/log-0.txt");
           ("app-0.9/log-0.txt", "app-1.9/log-0.txt")]).
Proof. vm_compute. reflexivity. Qed.

(** ** The signal dumps *)

Lemma fprintf_file_appends (fp text c : string) (m : gmap string string) (w : world) :
  io_fault w = false → fs w = <[fp := c]> m →
  fs (snd (fprintf_file fp text w)) = <[fp := c ++ text]> m.
Proof.
  intros Hf Hd. unfold fprintf_file. rewrite Hf. cbn [snd fs with_fs].
  rewrite Hd, alter_insert_eq. reflexivity.
Qed.

Lemma fprintf_file_lost (fp text : string) (w : world) :
  io_fault w = true → snd (fprintf_file fp text w) = w.
Proof. intros Hf. unfold fprintf_file. now rewrite Hf. Qed.

Lemma flat_cons (s : string) (l : list string) : flat (s :: l) = s ++ flat l.
Proof. reflexivity. Qed.

(** The loop on a healthy device: one line per sample is appended. *)
Lemma dump_passband_loop_spec (fp : string) (signal : list Z) (n i : nat) (c : string)
    (m : gmap string string) (w : world) :
  io_fault w = false → fs w = <[fp := c]> m → (i + n ≤ length signal)%nat →
  ∃ w', dump_passband_loop fp signal n i w = Some w'
    ∧ fs w' = <[fp := c ++ flat ((λ s, dec s ++ newline) <$> take n (drop i signal))]> m.
Proof.
  revert i c w. induction n as [|n IH]; intros i c w Hf Hd Hlen; cbn [dump_passband_loop].
  - exists w. split; [reflexivity |]. rewrite take_0. cbn [fmap list_fmap flat foldr].
    now rewrite append_empty_r.
  - destruct (signal !! i) as [s|] eqn:Hs;
      [| apply lookup_ge_None in Hs; lia].
    cbn [mbind option_bind].
    set (w1 := snd (fprintf_file fp (dec s ++ newline) w)).
    assert (Hf1 : io_fault w1 = false)
      by (subst w1; destruct (fprintf_file_env fp (dec s ++ newline) w)
            as (_ & _ & _ & -> & _); exact Hf).
    pose proof (fprintf_file_appends fp (dec s ++ newline) c m w Hf Hd) as Hd1.
    fold w1 in Hd1.
    destruct (IH (S i) (c ++ dec s ++ newline) w1 Hf1 Hd1) as (w' & Hrun & Hfs); [lia |].
    exists w'. split; [exact Hrun |]. rewrite Hfs.
    rewrite (drop_S _ _ _ Hs). cbn [take fmap list_fmap]. rewrite flat_cons.
    f_equal. rewrite !append_assoc. reflexivity.
Qed.

(** The loop on a failing device: nothing is written, and the loop goes on. *)
Lemma dump_passband_loop_lost (fp : string) (signal : list Z) (n i : nat) (w : world) :
  io_fault w = true → (i + n ≤ length signal)%nat →
  dump_passband_loop fp signal n i w = Some w.
Proof.
  intros Hf. revert i. induction n as [|n IH]; intros i Hlen; cbn [dump_passband_loop].
  - reflexivity.
  - destruct (signal !! i) as [s|] eqn:Hs;
      [| apply lookup_ge_None in Hs; lia].
    cbn [mbind option_bind]. rewrite (fprintf_file_lost _ _ _ Hf). apply IH. lia.
Qed.

(** [dump_passband_signal] on an openable path and a healthy device returns
    0 and leaves a file that holds the first [len] samples, one decimal
    number per line, in place of whatever the file held; the log stream is
    not involved. *)
Theorem dump_passband_writes_decimal_lines
    (filename : string) (signal : list Z) (len : Z) (w : world) :
  openable w filename = true → io_fault w = false →
  (Z.to_nat len ≤ length signal)%nat →
  ∃ w', dump_passband_signal filename signal len w = Some (0, w')
    ∧ fs w' = <[filename := flat ((λ s, dec s ++ newline) <$> take (Z.to_nat len) signal)]>
                (fs w)
    ∧ stderr w' = stderr w ∧ terminal w' = terminal w ∧ trace w' = trace w.
Proof.
  intros Ho Hf Hlen.
  destruct (dump_passband_signal filename signal len w) as [[r w']|] eqn:Hrun.
  - pose proof (dump_passband_signal_env _ _ _ _ _ _ Hrun) as (_ & _ & Hs & _ & Ht & Htr).
    revert Hrun. unfold dump_passband_signal, fopen_wt. rewrite Ho.
    set (w1 := with_fs _ w).
    destruct (dump_passband_loop_spec filename signal (Z.to_nat len) 0 "" (fs w) w1 Hf
                eq_refl) as (w2 & Hloop & Hfs); [lia |].
    rewrite Hloop. cbn [mbind option_bind fclose_file snd]. intros [= <- <-].
    exists w2. split; [reflexivity |]. split; [exact Hfs |]. auto.
  - exfalso. revert Hrun. unfold dump_passband_signal, fopen_wt. rewrite Ho.
    set (w1 := with_fs _ w).
    destruct (dump_passband_loop_spec filename signal (Z.to_nat len) 0 "" (fs w) w1 Hf
                eq_refl) as (w2 & Hloop & _); [lia |].
    rewrite Hloop. discriminate.
Qed.

Lemma dump_passband_writes_decimal_lines_witness :
  ∃ w', dump_passband_signal "pb.txt" [12; -7; 0; 99] 3 (boot_world {["pb.txt" := "stale"]})
        = Some (0, w')
    ∧ fs w' = <["pb.txt" := flat ((λ s, dec s ++ newline)
                                    <$> take (Z.to_nat 3) [12; -7; 0; 99])]>
                (fs (boot_world {["pb.txt" := "stale"]}))
    ∧ stderr w' = stderr (boot_world {["pb.txt" := "stale"]})
    ∧ terminal w' = terminal (boot_world {["pb.txt" := "stale"]})
    ∧ trace w' = trace (boot_world {["pb.txt" := "stale"]}).
Proof.
  apply (dump_passband_writes_decimal_lines "pb.txt" [12; -7; 0; 99] 3
           (boot_world {["pb.txt" := "stale"]}));
    [reflexivity | reflexivity | vm_compute; lia].
Defined.

(** The result of [dump_passband_signal] tells whether the file could be
    opened, and nothing else: -1 with nothing changed when it could not, 0
    otherwise, also when every write failed and the file is left empty. *)
Theorem dump_passband_reports_only_open_failure
    (filename : string) (signal : list Z) (len : Z) (w : world) :
  (Z.to_nat len ≤ length signal)%nat →
  ∃ r w', dump_passband_signal filename signal len w = Some (r, w')
    ∧ (r = -1 ↔ openable w filename = false)
    ∧ (r = 0 ↔ openable w filename = true)
    ∧ (openable w filename = false → w' = w)
    ∧ (openable w filename = true → io_fault w = true →
       fs w' = <[filename := ""]> (fs w)).
Proof.
  intros Hlen. unfold dump_passband_signal, fopen_wt.
  destruct (openable w filename) eqn:Ho.
  - set (w1 := with_fs _ w).
    destruct (io_fault w) eqn:Hf.
    + rewrite (dump_passband_loop_lost filename signal (Z.to_nat len) 0 w1 Hf) by lia.
      cbn [mbind option_bind fclose_file snd]. exists 0, w1.
      split; [reflexivity |]. repeat split; try discriminate; reflexivity.
    + destruct (dump_passband_loop_spec filename signal (Z.to_nat len) 0 "" (fs w) w1 Hf
                  eq_refl) as (w2 & Hloop & _); [lia |].
      rewrite Hloop. cbn [mbind option_bind fclose_file snd]. exists 0, w2.
      split; [reflexivity |]. repeat split; try discriminate; reflexivity.
  - exists (-1), w. split; [reflexivity |].
    repeat split; try discriminate; reflexivity.
Qed.

Lemma dump_passband_reports_only_open_failure_witness :
  ∃ r w', dump_passband_signal "pb.txt" [12; -7] 2 faulty_world = Some (r, w')
    ∧ (r = -1 ↔ openable faulty_world "pb.txt" = false)
    ∧ (r = 0 ↔ openable faulty_world "pb.txt" = true)
    ∧ (openable faulty_world "pb.txt" = false → w' = faulty_world)
    ∧ (openable faulty_world "pb.txt" = true → io_fault faulty_world = true →
       fs w' = <["pb.txt" := ""]> (fs faulty_world)).
Proof.
  apply (dump_passband_reports_only_open_failure "pb.txt" [12; -7] 2 faulty_world).
  vm_compute. lia.
Defined.

(** *** Reading a dump back *)

Lemma read_lines_char (c : ascii) (rest cur : string) :
  Ascii.eqb c (ascii_of_nat 10) = false →
  read_lines (String c rest) cur = read_lines rest (cur ++ String c "").
Proof. intros H. cbn [read_lines]. now rewrite H. Qed.

Lemma read_lines_uint (d : Decimal.uint) (rest cur : string) :
  read_lines (NilEmpty.string_of_uint d ++ rest) cur
  = read_lines rest (cur ++ NilEmpty.string_of_uint d).
Proof.
  revert cur. induction d; intros cur; cbn [NilEmpty.string_of_uint];
    [change ("" ++ rest) with rest; now rewrite append_empty_r | ..];
    rewrite append_cons, read_lines_char by reflexivity;
    rewrite IHd, append_assoc; reflexivity.
Qed.

Lemma read_lines_dec (z : Z) (rest : string) :
  read_lines (dec z ++ newline ++ rest) "" = (dec z ::.) <$> read_lines rest "".
Proof.
  assert (Hnl : ∀ cur, read_lines (newline ++ rest) cur = (cur ::.) <$> read_lines rest "")
    by reflexivity.
  assert (Hu : ∀ d cur, read_lines (NilZero.string_of_uint d ++ newline ++ rest) cur
                        = ((cur ++ NilZero.string_of_uint d) ::.) <$> read_lines rest "").
  { intros d cur. destruct d; cbn [NilZero.string_of_uint];
      try (rewrite read_lines_uint; apply Hnl).
    rewrite append_cons, read_lines_char by reflexivity. apply Hnl. }
  unfold dec. destruct (Z.to_int z) as [d|d]; cbn [NilZero.string_of_int].
  - apply Hu.
  - rewrite append_cons, read_lines_char by reflexivity. apply Hu.
Qed.

Lemma parse_int_dec (z : Z) : parse_int (dec z) = Some z.
Proof.
  unfold parse_int, dec.
  rewrite NilZero.isi.
  - cbn [fmap option_fmap option_map]. now rewrite DecimalZ.of_to.
  - destruct z as [|p|p]; try discriminate.
    intros [= H]. exact (DecimalPos.Unsigned.to_uint_nonnil p H).
  - destruct z as [|p|p]; try discriminate.
    intros [= H]. exact (DecimalPos.Unsigned.to_uint_nonnil p H).
Qed.

Lemma read_samples_lines (l : list Z) :
  read_samples (flat ((λ s, dec s ++ newline) <$> l)) = Some l.
Proof.
  unfold read_samples.
  assert (H : read_lines (flat ((λ s, dec s ++ newline) <$> l)) "" = Some (dec <$> l)).
  { induction l as [|z l IH]; [reflexivity |].
    cbn [fmap list_fmap]. rewrite flat_cons, append_assoc, read_lines_dec.
    fold (fmap (M := list) (λ s : Z, dec s ++ newline) l). rewrite IH. reflexivity. }
  rewrite H. cbn [mbind option_bind].
  induction l as [|z l IH]; [reflexivity |].
  cbn [fmap list_fmap mapM]. rewrite parse_int_dec. cbn [mbind option_bind].
  fold (fmap (M := list) dec l). rewrite IH; [reflexivity |].
  clear -l. induction l as [|z l IH]; [reflexivity |].
  cbn [fmap list_fmap]. rewrite flat_cons, append_assoc, read_lines_dec.
  fold (fmap (M := list) (λ s : Z, dec s ++ newline) l). rewrite IH. reflexivity.
Qed.

(** The samples can be read back from a dump: splitting the file into its
    lines and reading each as a decimal integer gives the first [len]
    samples. *)
Theorem dump_passband_reads_back
    (filename : string) (signal : list Z) (len : Z) (w : world) :
  openable w filename = true → io_fault w = false →
  (Z.to_nat len ≤ length signal)%nat →
  ∃ w' c, dump_passband_signal filename signal len w = Some (0, w')
    ∧ fs w' !! filename = Some c
    ∧ read_samples c = Some (take (Z.to_nat len) signal).
Proof.
  intros Ho Hf Hlen.
  destruct (dump_passband_signal filename signal len w) as [[r w']|] eqn:Hrun.
  - revert Hrun. unfold dump_passband_signal, fopen_wt. rewrite Ho.
    set (w1 := with_fs _ w).
    destruct (dump_passband_loop_spec filename signal (Z.to_nat len) 0 "" (fs w) w1 Hf
                eq_refl) as (w2 & Hloop & Hfs); [lia |].
    rewrite Hloop. cbn [mbind option_bind fclose_file snd]. intros [= <- <-].
    exists w2, (flat ((λ s, dec s ++ newline) <$> take (Z.to_nat len) signal)).
    split; [reflexivity |]. split; [rewrite Hfs; apply lookup_insert_eq |].
    apply read_samples_lines.
  - exfalso. revert Hrun. unfold dump_passband_signal, fopen_wt. rewrite Ho.
    set (w1 := with_fs _ w).
    destruct (dump_passband_loop_spec filename signal (Z.to_nat len) 0 "" (fs w) w1 Hf
                eq_refl) as (w2 & Hloop & _); [lia |].
    rewrite Hloop. discriminate.
Qed.

Lemma dump_passband_reads_back_witness :
  ∃ w' c, dump_passband_signal "pb.txt" [12; -7; 0; 99] 4 (boot_world ∅) = Some (0, w')
    ∧ fs w' !! "pb.txt" = Some c
    ∧ read_samples c = Some (take (Z.to_nat 4) [12; -7; 0; 99]).
Proof.
  apply (dump_passband_reads_back "pb.txt" [12; -7; 0; 99] 4 (boot_world ∅));
    [reflexivity | reflexivity | vm_compute; lia].
Defined.

(** *** The baseband dump *)

Lemma dump_baseband_loop_spec {float : Type} (fmt_f : float → string) (fp : string) (signal : list (float * float)) (n i : nat)
    (c : string) (m : gmap string string) (w : world) :
  io_fault w = false → fs w = <[fp := c]> m → (i + n ≤ length signal)%nat →
  ∃ w', dump_baseband_loop fmt_f fp signal n i w = Some w'
    ∧ fs w' = <[fp := c ++ flat ((λ s, fmt_f s.1 ++ "," ++ fmt_f s.2 ++ newline)
                                   <$> take n (drop i signal))]> m
    ∧ stderr w' = stderr w ∧ terminal w' = terminal w ∧ trace w' = trace w.
Proof.
  revert i c w. induction n as [|n IH]; intros i c w Hf Hd Hlen; cbn [dump_baseband_loop].
  - exists w. split; [reflexivity |]. rewrite take_0. cbn [fmap list_fmap flat foldr].
    rewrite append_empty_r. auto.
  - destruct (signal !! i) as [s|] eqn:Hs;
      [| apply lookup_ge_None in Hs; lia].
    cbn [mbind option_bind].
    set (text := fmt_f s.1 ++ "," ++ fmt_f s.2 ++ newline).
    set (w1 := snd (fprintf_file fp text w)).
    destruct (fprintf_file_env fp text w) as (_ & _ & E1 & E2 & E3 & E4).
    fold w1 in E1, E2, E3, E4.
    assert (Hf1 : io_fault w1 = false) by now rewrite E2.
    pose proof (fprintf_file_appends fp text c m w Hf Hd) as Hd1.
    fold w1 in Hd1.
    destruct (IH (S i) (c ++ text) w1 Hf1 Hd1) as (w' & Hrun & Hfs & F1 & F2 & F3); [lia |].
    exists w'. split; [exact Hrun |].
    rewrite F1, F2, F3, E1, E3, E4. split; [| auto].
    rewrite Hfs, (drop_S _ _ _ Hs). cbn [take fmap list_fmap]. rewrite flat_cons.
    fold text. now rewrite append_assoc.
Qed.

(** [dump_baseband_signal] returns -1 and changes nothing when the file
    cannot be opened; otherwise, on a healthy device, it returns 0 and the
    file holds one line real,imaginary per sample, both printed by [%f]. *)
Theorem dump_baseband_writes_pair_lines {float : Type} (fmt_f : float → string)
    (filename : string) (signal : list (float * float)) (len : Z) (w : world) :
  (Z.to_nat len ≤ length signal)%nat →
  (openable w filename = false →
   dump_baseband_signal fmt_f filename signal len w = Some (-1, w))
  ∧ (openable w filename = true → io_fault w = false →
     ∃ w', dump_baseband_signal fmt_f filename signal len w = Some (0, w')
       ∧ fs w' = <[filename := flat ((λ s, fmt_f s.1 ++ "," ++ fmt_f s.2 ++ newline)
                                       <$> take (Z.to_nat len) signal)]> (fs w)
       ∧ stderr w' = stderr w ∧ terminal w' = terminal w ∧ trace w' = trace w).
Proof.
  intros Hlen. unfold dump_baseband_signal, fopen_wt. split.
  - intros ->. reflexivity.
  - intros -> Hf. set (w1 := with_fs _ w).
    destruct (dump_baseband_loop_spec fmt_f filename signal (Z.to_nat len) 0 "" (fs w) w1 Hf
                eq_refl) as (w2 & Hloop & Hfs & F1 & F2 & F3); [lia |].
    rewrite Hloop. cbn [mbind option_bind fclose_file snd].
    exists w2. split; [reflexivity |]. split; [exact Hfs |]. auto.
Qed.

Lemma dump_baseband_writes_pair_lines_witness :
  (openable (boot_world ∅) "bb.txt" = false →
   dump_baseband_signal dec "bb.txt" [(1, -2); (3, 4)] 2 (boot_world ∅)
   = Some (-1, boot_world ∅))
  ∧ (openable (boot_world ∅) "bb.txt" = true → io_fault (boot_world ∅) = false →
     ∃ w', dump_baseband_signal dec "bb.txt" [(1, -2); (3, 4)] 2 (boot_world ∅)
           = Some (0, w')
       ∧ fs w' = <["bb.txt" := flat ((λ s, dec s.1 ++ "," ++ dec s.2 ++ newline)
                                       <$> take (Z.to_nat 2) [(1, -2); (3, 4)])]>
                   (fs (boot_world ∅))
       ∧ stderr w' = stderr (boot_world ∅) ∧ terminal w' = terminal (boot_world ∅)
       ∧ trace w' = trace (boot_world ∅)).
Proof.
  apply (dump_baseband_writes_pair_lines dec "bb.txt" [(1, -2); (3, 4)] 2 (boot_world ∅)).
  vm_compute. lia.
Defined.

(** ** More on bits2str *)

Lemma length_hex_cells (data : list byte) :
  length (list_ascii_of_string (hex_of_bytes data)) = (2 * length data)%nat.
Proof. induction data as [|b data IH]; simpl; [reflexivity | rewrite IH; lia]. Qed.

(** Without a buffer, [bits2str] takes exactly [2*len+1] bytes from the
    heap for its result and never gives them back; when that much is not
    available it returns the null pointer and changes nothing. *)
Theorem bits2str_allocates_exactly (data : list byte) (len : nat) (w : world) :
  (len ≤ length data)%nat → 2 * Z.of_nat len + 1 ≤ INT_MAX →
  (2 * Z.of_nat len + 1 ≤ heap_avail w →
   ∃ buf, bits2str data (Z.of_nat len) None w
          = Some (Some buf, with_heap (heap_avail w - (2 * Z.of_nat len + 1)) w)
     ∧ length buf = (2 * len + 1)%nat)
  ∧ (heap_avail w < 2 * Z.of_nat len + 1 →
     bits2str data (Z.of_nat len) None w = Some (None, w)).
Proof.
  intros Hlen Hint. unfold bits2str.
  rewrite in_int_true by (unfold INT_MIN; lia). split.
  - intros Hheap. rewrite malloc_some by lia. rewrite Nat2Z.id.
    replace (Z.to_nat (2 * Z.of_nat len + 1)) with (2 * len + 1)%nat by lia.
    destruct len as [|n].
    + cbn [bits2str_loop mbind option_bind]. eexists. split; reflexivity.
    + pose proof (bits2str_loop_spec data (S n) 0 [] (replicate (2 * S n + 1) NUL)) as Hloop.
      cbn [app] in Hloop. change (drop 0 data) with data in Hloop.
      rewrite Hloop;
        [| lia | simpl; lia | lia | reflexivity | rewrite length_replicate; lia].
      cbn [mbind option_bind]. eexists. split; [reflexivity |].
      rewrite length_app, length_hex_cells, length_take. cbn [length].
      rewrite length_drop, length_replicate. lia.
  - intros Hheap. unfold malloc.
    destruct (Z.leb_spec (2 * Z.of_nat len + 1) (heap_avail w)); [lia |].
    now rewrite andb_false_r.
Qed.

Lemma bits2str_allocates_exactly_witness :
  (2 * Z.of_nat 2 + 1 ≤ heap_avail (tight_world 5 ∅) →
   ∃ buf, bits2str [x01; xfe] (Z.of_nat 2) None (tight_world 5 ∅)
          = Some (Some buf, with_heap (heap_avail (tight_world 5 ∅) - (2 * Z.of_nat 2 + 1))
                              (tight_world 5 ∅))
     ∧ length buf = (2 * 2 + 1)%nat)
  ∧ (heap_avail (tight_world 5 ∅) < 2 * Z.of_nat 2 + 1 →
     bits2str [x01; xfe] (Z.of_nat 2) None (tight_world 5 ∅)
     = Some (None, tight_world 5 ∅)).
Proof.
  apply (bits2str_allocates_exactly [x01; xfe] 2 (tight_world 5 ∅)).
  - simpl. lia.
  - vm_compute. discriminate.
Defined.

(** Into a caller's buffer [bits2str] writes the [2*len] digits and one
    terminator and leaves every later cell alone; with [len <= 0] it writes
    nothing at all, not even a terminator. *)
Theorem bits2str_touches_only_its_cells
    (data : list byte) (len : Z) (str : list ascii) (w : world) :
  (len ≤ 0 → bits2str data len (Some str) w = Some (Some str, w))
  ∧ (0 < len → (Z.to_nat len ≤ length data)%nat → 2 * len + 1 ≤ INT_MAX →
     (2 * Z.to_nat len + 1 ≤ length str)%nat →
     bits2str data len (Some str) w
     = Some (Some (list_ascii_of_string (hex_of_bytes (take (Z.to_nat len) data))
                   ++ NUL :: drop (2 * Z.to_nat len + 1) str)%list, w)).
Proof.
  unfold bits2str. split.
  - intros Hle. replace (Z.to_nat len) with 0%nat by lia. reflexivity.
  - intros Hpos Hdata Hint Hroom.
    pose proof (bits2str_loop_spec data (Z.to_nat len) 0 [] str) as Hloop.
    cbn [app] in Hloop. change (drop 0 data) with data in Hloop.
    rewrite Hloop; [reflexivity | lia | simpl; lia | lia | reflexivity | lia].
Qed.

Lemma bits2str_touches_only_its_cells_witness :
  (2 ≤ 0 → bits2str [x01; xfe] 2 (Some (replicate 8 "#"%char)) (boot_world ∅)
           = Some (Some (replicate 8 "#"%char), boot_world ∅))
  ∧ (0 < 2 → (Z.to_nat 2 ≤ length [x01; xfe])%nat → 2 * 2 + 1 ≤ INT_MAX →
     (2 * Z.to_nat 2 + 1 ≤ length (replicate 8 "#"%char))%nat →
     bits2str [x01; xfe] 2 (Some (replicate 8 "#"%char)) (boot_world ∅)
     = Some (Some (list_ascii_of_string
                     (hex_of_bytes (take (Z.to_nat 2) [x01; xfe]))
                   ++ NUL :: drop (2 * Z.to_nat 2 + 1) (replicate 8 "#"%char))%list,
             boot_world ∅)).
Proof.
  apply (bits2str_touches_only_its_cells [x01; xfe] 2 (replicate 8 "#"%char)
           (boot_world ∅)).
Defined.

Lemma sprintf_at_length (str str' : list ascii) (off : nat) (text : string) :
  sprintf_at str off text = Some str' → length str' = length str.
Proof.
  unfold sprintf_at.
  destruct (Nat.leb_spec (off + length (list_ascii_of_string text ++ [NUL]))
              (length str)) as [Hfit | _]; [| discriminate].
  intros [= <-]. rewrite length_app in Hfit.
  rewrite !length_app, length_take, length_drop. lia.
Qed.

Lemma sprintf_at_short (str : list ascii) (i : nat) (b : byte) :
  (length str < 2 * i + 3)%nat → sprintf_at str (2 * i) (format_02x b) = None.
Proof.
  intros Hshort. rewrite format_02x_nibbles. unfold sprintf_at.
  cbn [list_ascii_of_string app length].
  destruct (Nat.leb_spec (2 * i + 3) (length str)) as [Hfit | _]; [lia | reflexivity].
Qed.

(** The loop runs off a buffer that has no room for the last terminator. *)
Lemma bits2str_loop_overrun (data : list byte) (n i : nat) (str : list ascii) :
  (0 < n)%nat → (length str < 2 * (i + n) + 1)%nat →
  bits2str_loop data n i str = None.
Proof.
  revert i str. induction n as [|n IH]; intros i str Hpos Hshort; [lia |].
  cbn [bits2str_loop].
  destruct (in_int (2 * Z.of_nat i)); [| reflexivity].
  destruct (data !! i) as [b|]; [| reflexivity].
  cbn [mbind option_bind].
  destruct (sprintf_at str (2 * i) (format_02x b)) as [str'|] eqn:Hs; [| reflexivity].
  cbn [mbind option_bind].
  destruct n as [|n'].
  - rewrite sprintf_at_short in Hs by lia. discriminate.
  - apply IH; [lia |]. rewrite (sprintf_at_length _ _ _ _ Hs). lia.
Qed.

(** [bits2str] does not check the caller's buffer: with fewer than
    [2*len+1] cells the conversion runs past its end. *)
Theorem bits2str_overruns_short_buffer
    (data : list byte) (len : Z) (str : list ascii) (w : world) :
  0 < len → Z.of_nat (length str) < 2 * len + 1 →
  bits2str data len (Some str) w = None.
Proof.
  intros Hpos Hshort. unfold bits2str.
  rewrite bits2str_loop_overrun by lia. reflexivity.
Qed.

Lemma bits2str_overruns_short_buffer_witness :
  bits2str [x01; xfe] 2 (Some (replicate 4 NUL)) (boot_world ∅) = None.
Proof.
  apply (bits2str_overruns_short_buffer [x01; xfe] 2 (replicate 4 NUL)
           (boot_world ∅)); reflexivity.
Defined.





(** ** The clock *)


